(** * mcp-atlassian: the Confluence storage-format preprocessor

    A shallow embedding of [src/mcp_atlassian/preprocessing/base.py] and
    [src/mcp_atlassian/preprocessing/confluence.py], and the properties of
    the macro-resolution pipeline proved over it.

    Layout:
    - Part I   Python strings, [str.rstrip], [str.strip], UTF-8, [urllib.parse.quote]
    - Part II  the BeautifulSoup tree and the queries the source uses
    - Part III effects: resolver calls, logging, the traversal of a pass
    - Part IV  [BasePreprocessor] and [ConfluencePreprocessor]
    - Part V   lemmas and the theorems about the pipeline
    - Part VI  further properties: the passes one at a time, the calls,
               [markdown_to_confluence_storage], [_convert_html_to_markdown],
               the download URL *)

From Stdlib Require Import List String Ascii NArith Bool Lia.
Import ListNotations.
Open Scope N_scope.
Open Scope list_scope.

Set Implicit Arguments.
Set Warnings "-register-all".

(* ================================================================== *)
(** * Part I: Python strings *)
(* ================================================================== *)

(** A Python [str] is a sequence of Unicode code points; a [bytes] object
    is a sequence of numbers below 256.  Code points are kept as [N] so
    that lone surrogates (which a [str] may hold) stay representable. *)
Definition pystr := list N.
Definition pybytes := list N.

(** String literals of the source, written as ASCII text. *)
Definition lit (s : string) : pystr :=
  map N_of_ascii (list_ascii_of_string s).

Fixpoint pystr_eqb (a b : pystr) : bool :=
  match a, b with
  | [], [] => true
  | x :: a', y :: b' => (x =? y) && pystr_eqb a' b'
  | _, _ => false
  end.

(** Truth value of a [str]: the empty string is falsy. *)
Definition truthy (s : pystr) : bool :=
  match s with [] => false | _ :: _ => true end.

(** Truth value of [x] for [x : str | None]. *)
Definition truthy_opt (o : option pystr) : bool :=
  match o with None => false | Some s => truthy s end.

(** The [str] behind a value known to be truthy. *)
Definition unwrap (o : option pystr) : pystr :=
  match o with Some s => s | None => [] end.

(** Python's [a or b] on [str | None] operands. *)
Definition py_or (a b : option pystr) : option pystr :=
  if truthy_opt a then a else b.

Fixpoint dropwhile (p : N -> bool) (s : list N) : list N :=
  match s with
  | [] => []
  | c :: s' => if p c then dropwhile p s' else s
  end.

(** [s.rstrip(chars)] and [s.lstrip(chars)] with the set [chars] given as
    a predicate. *)
Definition rstrip (p : N -> bool) (s : list N) : list N :=
  rev (dropwhile p (rev s)).

Definition lstrip (p : N -> bool) (s : list N) : list N :=
  dropwhile p s.

(** [str.isspace] on one code point: the characters CPython's
    [_PyUnicode_IsWhitespace] accepts. *)
Definition isspace (c : N) : bool :=
  ((0x09 <=? c) && (c <=? 0x0D))
  || ((0x1C <=? c) && (c <=? 0x20))
  || (c =? 0x85) || (c =? 0xA0) || (c =? 0x1680)
  || ((0x2000 <=? c) && (c <=? 0x200A))
  || (c =? 0x2028) || (c =? 0x2029) || (c =? 0x202F)
  || (c =? 0x205F) || (c =? 0x3000).

(** [s.strip()] *)
Definition strip (s : pystr) : pystr := rstrip isspace (lstrip isspace s).

(** ** Exceptions and results *)

Inductive exn : Type :=
| UnicodeEncodeError (codepoint : N)   (* raised by [str.encode] *)
| Exception (msg : pystr).             (* any other [Exception] *)

Inductive result (A : Type) : Type :=
| Ok (a : A)
| Raise (e : exn).
Arguments Ok {A} a.
Arguments Raise {A} e.

Definition str_of_exn (e : exn) : pystr :=
  match e with
  | UnicodeEncodeError _ => lit "'utf-8' codec can't encode character: surrogates not allowed"
  | Exception m => m
  end.

(** ** [str.encode("utf-8", "strict")] *)

Definition encode_char (c : N) : result pybytes :=
  if c <? 0x80 then Ok [c]
  else if c <? 0x800 then
    Ok [N.lor 0xC0 (N.shiftr c 6); N.lor 0x80 (N.land c 0x3F)]
  else if c <? 0x10000 then
    if (0xD800 <=? c) && (c <=? 0xDFFF) then Raise (UnicodeEncodeError c)
    else Ok [N.lor 0xE0 (N.shiftr c 12);
             N.lor 0x80 (N.land (N.shiftr c 6) 0x3F);
             N.lor 0x80 (N.land c 0x3F)]
  else if c <? 0x110000 then
    Ok [N.lor 0xF0 (N.shiftr c 18);
        N.lor 0x80 (N.land (N.shiftr c 12) 0x3F);
        N.lor 0x80 (N.land (N.shiftr c 6) 0x3F);
        N.lor 0x80 (N.land c 0x3F)]
  else Raise (UnicodeEncodeError c).   (* not a code point: no [str] holds it *)

Fixpoint encode (s : pystr) : result pybytes :=
  match s with
  | [] => Ok []
  | c :: s' =>
      match encode_char c with
      | Raise e => Raise e
      | Ok bs =>
          match encode s' with
          | Raise e => Raise e
          | Ok bs' => Ok (bs ++ bs')
          end
      end
  end.

(** ** [urllib.parse.quote] *)

Definition is_upper (b : N) : bool := (65 <=? b) && (b <=? 90).
Definition is_lower (b : N) : bool := (97 <=? b) && (b <=? 122).
Definition is_digit (b : N) : bool := (48 <=? b) && (b <=? 57).

Definition mem (b : N) (cs : list N) : bool := existsb (N.eqb b) cs.

(** [_ALWAYS_SAFE]: letters, digits and [_.-~]. *)
Definition _ALWAYS_SAFE (b : N) : bool :=
  is_upper b || is_lower b || is_digit b || mem b (lit "_.-~").

Definition in_safe (safe : pystr) (b : N) : bool :=
  _ALWAYS_SAFE b || mem b safe.

Definition hex_digit (n : N) : N :=
  if n <? 10 then 48 + n else 55 + n.

(** ['%{:02X}'.format(b)] *)
Definition pct (b : N) : pystr :=
  [37; hex_digit (b / 16); hex_digit (b mod 16)].

(** [_byte_quoter_factory(safe)]: one byte to its text. *)
Definition quoter (safe : pystr) (b : N) : pystr :=
  if in_safe safe b then [b] else pct b.

Definition quote_from_bytes (bs : pybytes) (safe : pystr) : pystr :=
  match bs with
  | [] => []
  | _ =>
      match rstrip (in_safe safe) bs with
      | [] => bs                              (* bs.decode() *)
      | _ => flat_map (quoter safe) bs
      end
  end.

(** [quote(string)] with the default [safe='/']. *)
Definition quote (s : pystr) : result pystr :=
  match s with
  | [] => Ok s
  | _ =>
      match encode s with
      | Raise e => Raise e
      | Ok bs => Ok (quote_from_bytes bs (lit "/"))
      end
  end.

(* ================================================================== *)
(** * Part II: the BeautifulSoup tree *)
(* ================================================================== *)

(** A [PageElement] is a text node or a [Tag] with its name, its attribute
    dictionary and its children.  The attributes the source reads
    ([ri:account-id], [ri:userkey], [ri:filename], [ac:name]) are not
    multi-valued, so [html.parser] stores each as a [str]. *)
Inductive PageElement : Type :=
| NavigableString (s : pystr)
| Tag (name : pystr) (attrs : list (pystr * pystr)) (contents : list PageElement).

Definition dict := list (pystr * pystr).

(** [d.get(key)] *)
Fixpoint dict_get (d : dict) (key : pystr) : option pystr :=
  match d with
  | [] => None
  | (k, v) :: d' => if pystr_eqb k key then Some v else dict_get d' key
  end.

(** [d.get(key, default)] *)
Definition dict_get_default (d : dict) (key default : pystr) : pystr :=
  match dict_get d key with Some v => v | None => default end.

(** [tag.get(key)] *)
Definition get (n : PageElement) (key : pystr) : option pystr :=
  match n with
  | NavigableString _ => None
  | Tag _ attrs _ => dict_get attrs key
  end.

Definition name_of (n : PageElement) : option pystr :=
  match n with
  | NavigableString _ => None
  | Tag name _ _ => Some name
  end.

(** [tag.descendants]: every node below [n], in document order. *)
Fixpoint descendants (n : PageElement) : list PageElement :=
  match n with
  | NavigableString _ => []
  | Tag _ _ cs => flat_map (fun c => c :: descendants c) cs
  end.

(** Does a node pass the filter of [find_all(name, attrs=attrs)]? *)
Definition matches (name : pystr) (attrs : dict) (n : PageElement) : bool :=
  match n with
  | NavigableString _ => false
  | Tag nm _ _ =>
      pystr_eqb nm name
      && forallb (fun kv => match get n (fst kv) with
                            | Some v => pystr_eqb v (snd kv)
                            | None => false
                            end) attrs
  end.

(** [tag.find_all(name, attrs=attrs)] *)
Definition find_all (n : PageElement) (name : pystr) (attrs : dict)
  : list PageElement :=
  filter (matches name attrs) (descendants n).

(** [tag.find(name, attrs=attrs)] *)
Definition find (n : PageElement) (name : pystr) (attrs : dict)
  : option PageElement :=
  hd_error (find_all n name attrs).

(** [tag.get_text(strip=True)]: the text nodes below the tag, each
    stripped, the empty ones dropped, joined without a separator. *)
Definition get_text_strip (n : PageElement) : pystr :=
  flat_map (fun d => match d with
                     | NavigableString s => strip s
                     | Tag _ _ _ => []
                     end) (descendants n).

(** [x.find_parent(name)] is not [None], for a node whose ancestors have
    the names [anc] (nearest first). *)
Definition has_parent (anc : list pystr) (name : pystr) : bool :=
  existsb (fun a => pystr_eqb a name) anc.

(** [soup.new_tag("img", src=src, alt=alt)] *)
Definition new_img (src alt : pystr) : PageElement :=
  Tag (lit "img") [(lit "src", src); (lit "alt", alt)] [].

(** [t = soup.new_tag("a", href=href); t.string = text] *)
Definition new_a (href text : pystr) : PageElement :=
  Tag (lit "a") [(lit "href", href)] [NavigableString text].

(* ================================================================== *)
(** * Part III: effects *)
(* ================================================================== *)

Inductive level : Type := DEBUG | WARNING | ERROR.

(** What a run leaves behind besides its result: the calls made on the
    Confluence client and the records handed to the logger. *)
Inductive event : Type :=
| Called_by_accountid (account_id : pystr)
| Called_by_username (username : pystr)
| Logged (lv : level) (msg : pystr).

Section Effects.

(** The state of the world behind the Confluence client (the service,
    its caches, the network). *)
Variable W : Type.

Record St : Type := mkSt { world : W; trace : list event }.

(** A computation: reads and updates the state, returns a value. *)
Definition M (A : Type) : Type := St -> A * St.

Definition ret {A} (a : A) : M A := fun s => (a, s).

Definition bind {A B} (m : M A) (k : A -> M B) : M B :=
  fun s => let (a, s') := m s in k a s'.

Definition emit (e : event) : M unit :=
  fun s => (tt, mkSt (world s) (trace s ++ [e])).

Definition log (lv : level) (msg : pystr) : M unit := emit (Logged lv msg).

(** The [ConfluenceClient] protocol: each method returns the user's
    details or raises, and may change the world. *)
Record ConfluenceClient : Type := mkClient {
  get_user_details_by_accountid : pystr -> W -> result dict * W;
  get_user_details_by_username : pystr -> W -> result dict * W
}.

Definition call_by_accountid (c : ConfluenceClient) (account_id : pystr)
  : M (result dict) :=
  fun s =>
    let (r, w') := get_user_details_by_accountid c account_id (world s) in
    (r, mkSt w' (trace s ++ [Called_by_accountid account_id])).

Definition call_by_username (c : ConfluenceClient) (username : pystr)
  : M (result dict) :=
  fun s =>
    let (r, w') := get_user_details_by_username c username (world s) in
    (r, mkSt w' (trace s ++ [Called_by_username username])).

End Effects.

Arguments ret {W A} a.
Arguments bind {W A B} m k.
Arguments emit {W} e.
Arguments log {W} lv msg.

Notation "x <- m ;; k" := (bind m (fun x => k))
  (at level 61, m at next level, right associativity).
Notation "m ;;; k" := (bind m (fun _ => k))
  (at level 61, right associativity).

(** ** One pass over the soup

    Every pass of the source has the shape
    [for el in soup.find_all(...): ... el.replace_with(...)].
    [find_all] returns its result as a list before the loop starts, in
    document order, so an element is handled before its descendants and
    its own subtree is still as the pass found it.  When the element is
    replaced, it leaves the soup with its subtree: the descendants that
    are in the list are still handled, for their effects, but what is
    done to them happens in the detached subtree, whose topmost ancestor
    is the replaced element.  When it is kept, the loop goes on below it.

    [handler anc n] is the loop body at element [n] whose ancestors are
    named [anc]: [Some r] when it ends in [n.replace_with(r)], [None] when
    it leaves [n] in place (also when [n] is not in the list). *)
Section Pass.

Variable W : Type.
Variable handler : list pystr -> PageElement -> M W (option PageElement).

Fixpoint visit (anc : list pystr) (n : PageElement) : M W PageElement :=
  match n with
  | NavigableString _ => ret n
  | Tag name attrs cs =>
      let visit_all :=
        fix visit_all (a : list pystr) (l : list PageElement)
          : M W (list PageElement) :=
          match l with
          | [] => ret []
          | c :: l' =>
              c' <- visit a c ;;
              l'' <- visit_all a l' ;;
              ret (c' :: l'')
          end in
      r <- handler anc n ;;
      match r with
      | Some n' => visit_all [name] cs ;;; ret n'
      | None =>
          cs' <- visit_all (name :: anc) cs ;;
          ret (Tag name attrs cs')
      end
  end.

Fixpoint visit_all (anc : list pystr) (l : list PageElement)
  : M W (list PageElement) :=
  match l with
  | [] => ret []
  | c :: l' =>
      c' <- visit anc c ;;
      l'' <- visit_all anc l' ;;
      ret (c' :: l'')
  end.

(** The loop over [soup.find_all(...)]: the soup itself is not in the
    list, its descendants are. *)
Definition run_pass (soup : PageElement) : M W PageElement :=
  match soup with
  | NavigableString _ => ret soup
  | Tag name attrs cs =>
      cs' <- visit_all [name] cs ;;
      ret (Tag name attrs cs')
  end.

End Pass.

(* ================================================================== *)
(** * Part IV: the preprocessors *)
(* ================================================================== *)

(** ** [class BasePreprocessor] *)

Record BasePreprocessor : Type := mkBase { base_url : pystr }.

(** [BasePreprocessor.__init__(self, base_url)]:
    [self.base_url = base_url.rstrip("/") if base_url else ""] *)
Definition BasePreprocessor_init (base_url : pystr) : BasePreprocessor :=
  mkBase (if truthy base_url then rstrip (fun c => mem c (lit "/")) base_url
          else lit "").

(** [_construct_attachment_download_url(self, base_url, page_id, filename)] *)
Definition _construct_attachment_download_url
  (base_url page_id filename : pystr) : result pystr :=
  match quote filename with
  | Raise e => Raise e
  | Ok encoded_filename =>
      Ok (base_url ++ lit "/download/attachments/" ++ page_id
          ++ lit "/" ++ encoded_filename)
  end.

Section Base.

Variable W : Type.
Let Client := ConfluenceClient W.

(** [_use_fallback_user_mention(self, user_element, account_id)]; the
    result is what [user_element] is replaced with. *)
Definition _use_fallback_user_mention
  (user_element : PageElement) (account_id : pystr) : M W PageElement :=
  let new_text := lit "@user_" ++ account_id in
  ret (NavigableString new_text).

(** [_replace_user_mention(self, user_element, account_id, confluence_client)] *)
Definition _replace_user_mention
  (user_element : PageElement) (account_id : pystr)
  (confluence_client : option Client) : M W PageElement :=
  match confluence_client with
  | Some client =>
      r <- call_by_accountid client account_id ;;
      match r with
      | Ok user_details =>
          let display_name :=
            dict_get_default user_details (lit "displayName") (lit "") in
          if truthy display_name then
            let new_text := lit "@" ++ display_name in
            ret (NavigableString new_text)
          else _use_fallback_user_mention user_element account_id
      | Raise e =>
          log WARNING (lit "Error processing user mention: " ++ str_of_exn e) ;;;
          _use_fallback_user_mention user_element account_id
      end
  | None => _use_fallback_user_mention user_element account_id
  end.

(** [user_ref and user_ref.get("ri:account-id")], followed by
    [account_id = user_ref.get("ri:account-id")] and
    [isinstance(account_id, str)]: the account id when the test passes. *)
Definition account_id_of (user_ref : option PageElement) : option pystr :=
  match user_ref with
  | Some u =>
      match get u (lit "ri:account-id") with
      | Some account_id => if truthy account_id then Some account_id else None
      | None => None
      end
  | None => None
  end.

(** The loop body of [_process_user_mentions_in_soup]. *)
Definition user_mention_step (confluence_client : option Client)
  (anc : list pystr) (user_element : PageElement)
  : M W (option PageElement) :=
  if matches (lit "ac:link") [] user_element then
    let user_ref := find user_element (lit "ri:user") [] in
    match account_id_of user_ref with
    | Some account_id =>
        (* Case 1: direct user reference without link-body *)
        r <- _replace_user_mention user_element account_id confluence_client ;;
        ret (Some r)
    | None =>
        (* Case 2: user reference with link-body containing @ *)
        let link_body := find user_element (lit "ac:link-body") [] in
        match link_body with
        | Some lb =>
            if mem 64 (get_text_strip lb) then
              let user_ref := find user_element (lit "ri:user") [] in
              match account_id_of user_ref with
              | Some account_id =>
                  r <- _replace_user_mention user_element account_id
                         confluence_client ;;
                  ret (Some r)
              | None => ret None
              end
            else ret None
        | None => ret None
        end
    end
  else ret None.

(** [_process_user_mentions_in_soup(self, soup, confluence_client)] *)
Definition _process_user_mentions_in_soup
  (soup : PageElement) (confluence_client : option Client) : M W PageElement :=
  run_pass (user_mention_step confluence_client) soup.

Definition MALFORMED : pystr := lit "[User Profile Macro (Malformed)]".

(** The body of the [try] in [_process_user_profile_macros_in_soup]:
    the display name, [None] when no call is made or the details have
    none, and an exception caught and logged. *)
Definition fetch_display_name (client : Client)
  (account_id userkey user_identifier_for_log : option pystr)
  : M W (option pystr) :=
  let fetched (r : result dict) : M W (option pystr) :=
    match r with
    | Ok user_details => ret (dict_get user_details (lit "displayName"))
    | Raise e =>
        log WARNING
          (lit "Error fetching user details for profile macro (user: "
           ++ unwrap user_identifier_for_log
           ++ lit "): " ++ str_of_exn e) ;;;
        ret None
    end in
  if truthy_opt account_id then
    r <- call_by_accountid client (unwrap account_id) ;; fetched r
  else if truthy_opt userkey then
    (* For Confluence Server/DC, userkey might be the username *)
    r <- call_by_username client (unwrap userkey) ;; fetched r
  else ret None.

(** The loop body of [_process_user_profile_macros_in_soup], for an
    element [macro_element] of [profile_macros]; the result is what the
    macro is replaced with. *)
Definition replace_profile_macro (confluence_client : option Client)
  (macro_element : PageElement) : M W PageElement :=
  let user_param :=
    find macro_element (lit "ac:parameter") [(lit "ac:name", lit "user")] in
  match user_param with
  | None =>
      log DEBUG (lit "User profile macro found without a 'user' parameter. Replacing with placeholder.") ;;;
      ret (NavigableString MALFORMED)
  | Some user_param =>
      let user_ref := find user_param (lit "ri:user") [] in
      match user_ref with
      | None =>
          log DEBUG (lit "User profile macro's 'user' parameter found without 'ri:user' tag. Replacing with placeholder.") ;;;
          ret (NavigableString MALFORMED)
      | Some user_ref =>
          let account_id := get user_ref (lit "ri:account-id") in
          let userkey := get user_ref (lit "ri:userkey") in
          let user_identifier_for_log := py_or account_id userkey in
          display_name <-
            match confluence_client with
            | Some client =>
                if truthy_opt user_identifier_for_log then
                  fetch_display_name client account_id userkey
                    user_identifier_for_log
                else ret None
            | None =>
                log WARNING (lit "Confluence client not available for User Profile Macro processing.") ;;;
                ret None
            end ;;
          if truthy_opt display_name then
            let replacement_text :=
              lit "@" ++ unwrap display_name in
            ret (NavigableString replacement_text)
          else
            let fallback_identifier :=
              if truthy_opt user_identifier_for_log
              then unwrap user_identifier_for_log
              else lit "unknown_user" in
            let fallback_text :=
              lit "[User Profile: " ++ fallback_identifier ++ lit "]" in
            log DEBUG (lit "Using fallback for user profile macro: " ++ fallback_text) ;;;
            ret (NavigableString fallback_text)
      end
  end.

Definition user_profile_step (confluence_client : option Client)
  (anc : list pystr) (macro_element : PageElement)
  : M W (option PageElement) :=
  if matches (lit "ac:structured-macro") [(lit "ac:name", lit "profile")]
       macro_element
  then r <- replace_profile_macro confluence_client macro_element ;; ret (Some r)
  else ret None.

(** [_process_user_profile_macros_in_soup(self, soup, confluence_client)] *)
Definition _process_user_profile_macros_in_soup
  (soup : PageElement) (confluence_client : option Client) : M W PageElement :=
  run_pass (user_profile_step confluence_client) soup.

(** ** Inline attachments *)

(** The [for param in ac_params] loop of [_process_ac_image_macros]:
    the text of the first parameter named [alt], [title] or [caption],
    [""] when there is none. *)
Fixpoint alt_text_of (ac_params : list PageElement) : pystr :=
  match ac_params with
  | [] => lit ""
  | param :: rest =>
      match get param (lit "ac:name") with
      | Some nm =>
          if existsb (pystr_eqb nm) [lit "alt"; lit "title"; lit "caption"]
          then get_text_strip param
          else alt_text_of rest
      | None => alt_text_of rest
      end
  end.

(** The loop body of [_process_ac_image_macros]. *)
Definition ac_image_step (page_id base_url : pystr)
  (anc : list pystr) (image_macro : PageElement)
  : M W (option PageElement) :=
  if matches (lit "ac:image") [] image_macro then
    match find image_macro (lit "ri:attachment") [] with
    | None => ret None
    | Some attachment_ref =>
        let filename := get attachment_ref (lit "ri:filename") in
        if negb (truthy_opt filename) then ret None
        else
          let filename := unwrap filename in
          let ac_params := find_all image_macro (lit "ac:parameter") [] in
          let alt_text := alt_text_of ac_params in
          match _construct_attachment_download_url base_url page_id filename with
          | Ok download_url =>
              let img_tag :=
                if truthy alt_text then new_img download_url alt_text
                else new_img download_url filename in
              ret (Some img_tag)
          | Raise e =>
              log WARNING (lit "Error processing ac:image macro: " ++ str_of_exn e) ;;;
              ret (Some (NavigableString (lit "[Image attachment]")))
          end
    end
  else ret None.

(** [_process_ac_image_macros(self, soup, confluence_client, page_id, base_url)] *)
Definition _process_ac_image_macros (soup : PageElement)
  (confluence_client : Client) (page_id base_url : pystr) : M W PageElement :=
  run_pass (ac_image_step page_id base_url) soup.

(** The loop body of [_process_ri_attachment_macros]. *)
Definition ri_attachment_step (page_id base_url : pystr)
  (anc : list pystr) (attachment_ref : PageElement)
  : M W (option PageElement) :=
  if matches (lit "ri:attachment") [] attachment_ref then
    let filename := get attachment_ref (lit "ri:filename") in
    if negb (truthy_opt filename) then ret None
    (* Skip if this is inside an ac:image (already processed) *)
    else if has_parent anc (lit "ac:image") then ret None
    (* Skip if this is inside an ac:link (will be processed separately) *)
    else if has_parent anc (lit "ac:link") then ret None
    else
      let filename := unwrap filename in
      match _construct_attachment_download_url base_url page_id filename with
      | Ok download_url => ret (Some (new_a download_url filename))
      | Raise e =>
          log WARNING (lit "Error processing ri:attachment: " ++ str_of_exn e) ;;;
          ret (Some (NavigableString (lit "[Attachment]")))
      end
  else ret None.

(** [_process_ri_attachment_macros(self, soup, confluence_client, page_id, base_url)] *)
Definition _process_ri_attachment_macros (soup : PageElement)
  (confluence_client : Client) (page_id base_url : pystr) : M W PageElement :=
  run_pass (ri_attachment_step page_id base_url) soup.

(** The loop body of [_process_ac_link_attachment_macros]. *)
Definition ac_link_attachment_step (page_id base_url : pystr)
  (anc : list pystr) (link_macro : PageElement)
  : M W (option PageElement) :=
  if matches (lit "ac:link") [] link_macro then
    match find link_macro (lit "ri:attachment") [] with
    | None => ret None
    | Some attachment_ref =>
        let filename := get attachment_ref (lit "ri:filename") in
        if negb (truthy_opt filename) then ret None
        else
          let filename := unwrap filename in
          let link_body := find link_macro (lit "ac:link-body") [] in
          let link_text :=
            match link_body with
            | Some lb => get_text_strip lb
            | None => filename
            end in
          match _construct_attachment_download_url base_url page_id filename with
          | Ok download_url => ret (Some (new_a download_url link_text))
          | Raise e =>
              log WARNING (lit "Error processing ac:link with ri:attachment: "
                           ++ str_of_exn e) ;;;
              ret (Some (NavigableString (lit "[Attachment link]")))
          end
    end
  else ret None.

(** [_process_ac_link_attachment_macros(self, soup, confluence_client, page_id, base_url)] *)
Definition _process_ac_link_attachment_macros (soup : PageElement)
  (confluence_client : Client) (page_id base_url : pystr) : M W PageElement :=
  run_pass (ac_link_attachment_step page_id base_url) soup.

(** [_process_inline_attachments_in_soup(self, soup, confluence_client, page_id, base_url)] *)
Definition _process_inline_attachments_in_soup (soup : PageElement)
  (confluence_client : Client) (page_id base_url : pystr) : M W PageElement :=
  soup <- _process_ac_image_macros soup confluence_client page_id base_url ;;
  soup <- _process_ri_attachment_macros soup confluence_client page_id base_url ;;
  _process_ac_link_attachment_macros soup confluence_client page_id base_url.

(** ** The pipeline *)

(** The collaborators of [process_html_content] that live outside the
    repository: the parser [BeautifulSoup(html, "html.parser")], the
    serializer [str(soup)] and [markdownify.markdownify]. *)
Variable BeautifulSoup : pystr -> result PageElement.
Variable str_of_soup : PageElement -> result pystr.
Variable md : pystr -> result pystr.

(** The rewriting between parsing and serializing: the statements of
    the [try] block of [process_html_content] that work on the soup. *)
Definition process_soup (self : BasePreprocessor) (soup : PageElement)
  (confluence_client : option Client) (page_id : option pystr)
  (preserve_inline_attachments : bool) : M W PageElement :=
  soup <- _process_user_mentions_in_soup soup confluence_client ;;
  soup <- _process_user_profile_macros_in_soup soup confluence_client ;;
  (* if preserve_inline_attachments and confluence_client and page_id: *)
  match preserve_inline_attachments, confluence_client with
  | true, Some client =>
      if truthy_opt page_id then
        _process_inline_attachments_in_soup soup client (unwrap page_id)
          (base_url self)
      else ret soup
  | _, _ => ret soup
  end.

(** [except Exception as e: logger.error(...); raise] *)
Definition log_and_raise {A} (e : exn) : M W (result A) :=
  log ERROR (lit "Error in process_html_content: " ++ str_of_exn e) ;;;
  ret (Raise e).

(** [BasePreprocessor.process_html_content] *)
Definition process_html_content (self : BasePreprocessor)
  (html_content space_key : pystr) (confluence_client : option Client)
  (page_id : option pystr) (preserve_inline_attachments : bool)
  : M W (result (pystr * pystr)) :=
  match BeautifulSoup html_content with
  | Raise e => log_and_raise e
  | Ok soup =>
      soup <- process_soup self soup confluence_client page_id
                preserve_inline_attachments ;;
      match str_of_soup soup with
      | Raise e => log_and_raise e
      | Ok processed_html =>
          match md processed_html with
          | Raise e => log_and_raise e
          | Ok processed_markdown =>
              ret (Ok (processed_html, processed_markdown))
          end
      end
  end.

(** ** [class ConfluencePreprocessor(BasePreprocessor)] *)

Record ConfluencePreprocessor : Type := mkConfluence {
  base : BasePreprocessor;
  preserve_inline_attachments : bool;
  proxy_host : option pystr;
  proxy_port : option N;
  proxy_base_path : option pystr
}.

(** [ConfluencePreprocessor.__init__] *)
Definition ConfluencePreprocessor_init (base_url : pystr)
  (preserve_inline_attachments : bool)
  (proxy_host : option pystr) (proxy_port : option N)
  (proxy_base_path : option pystr) : ConfluencePreprocessor :=
  mkConfluence (BasePreprocessor_init base_url) preserve_inline_attachments
    proxy_host proxy_port proxy_base_path.

(** [ConfluencePreprocessor.process_html_content]:
    [preserve_inline_attachments] is [bool | None]. *)
Definition Confluence_process_html_content (self : ConfluencePreprocessor)
  (html_content space_key : pystr) (confluence_client : option Client)
  (page_id : option pystr) (preserve_inline_attachments_arg : option bool)
  : M W (result (pystr * pystr)) :=
  (* Use instance setting if not explicitly provided *)
  let preserve :=
    match preserve_inline_attachments_arg with
    | None => preserve_inline_attachments self
    | Some b => b
    end in
  r <- process_html_content (base self) html_content space_key
         confluence_client page_id preserve ;;
  match r with
  | Ok (processed_html, processed_markdown) =>
      ret (Ok (processed_html, processed_markdown))
  | Raise e => ret (Raise e)
  end.

End Base.

Arguments process_html_content {W} BeautifulSoup str_of_soup md self
  html_content space_key confluence_client page_id preserve_inline_attachments.
Arguments Confluence_process_html_content {W} BeautifulSoup str_of_soup md self
  html_content space_key confluence_client page_id preserve_inline_attachments_arg.

(* ================================================================== *)
(** * Part IV-b: the specification's wording, as definitions *)
(* ================================================================== *)

(** Spec 4.5: "stripping one trailing slash from base". *)
Definition strip_one_trailing_slash (s : pystr) : pystr :=
  match rev s with
  | 47 :: r => rev r
  | _ => s
  end.




(** Spec 4.3: the "named parameter called [user] wrapping a user
    reference" of a profile macro. *)
Definition user_reference (macro : PageElement) : option PageElement :=
  match find macro (lit "ac:parameter") [(lit "ac:name", lit "user")] with
  | Some user_param => find user_param (lit "ri:user") []
  | None => None
  end.

(** The calls on the resolver among the events of a run. *)
Definition is_call (e : event) : bool :=
  match e with
  | Called_by_accountid _ | Called_by_username _ => true
  | Logged _ _ => false
  end.

Definition calls (t : list event) : list event := filter is_call t.

(** Spec 4.1-4.3: what a resolver answer [res] makes of a macro.  With a
    non-empty display name [D] the replacement is [success D]; when the
    call raised, or the details carry no (or an empty) display name, it
    is [fallback]. *)
Definition resolution (res : result dict) (success : pystr -> pystr)
  (fallback : pystr) (replacement : pystr) : Prop :=
  (forall d D, res = Ok d -> dict_get d (lit "displayName") = Some D ->
               D <> [] -> replacement = success D)
  /\ (forall e, res = Raise e -> replacement = fallback)
  /\ (forall d, res = Ok d ->
                truthy_opt (dict_get d (lit "displayName")) = false ->
                replacement = fallback).

(** Spec 4.3: the identifier of the fallback text, "the account id if
    present else the username else the literal string for unknown". *)
Definition identifier (account_id userkey : option pystr) : pystr :=
  if truthy_opt account_id then unwrap account_id
  else if truthy_opt userkey then unwrap userkey
  else lit "unknown_user".

Definition profile_fallback (id : pystr) : pystr :=
  lit "[User Profile: " ++ id ++ lit "]".

(** Spec 4.2: the outcome of rewriting a mention with account id
    [account_id], from state [s] to state [s'], with replacement text [r].
    Without a resolver: the fallback text, nothing else happens.  With
    one: a single [resolve_by_account_id] call, whose answer decides
    between ["@<display_name>"] and the fallback ["@user_<account_id>"]. *)
Definition mention_outcome {W} (confluence_client : option (ConfluenceClient W))
  (account_id : pystr) (s s' : St W) (r : pystr) : Prop :=
  match confluence_client with
  | None => r = lit "@user_" ++ account_id /\ s' = s
  | Some client =>
      calls (trace s') = calls (trace s) ++ [Called_by_accountid account_id]
      /\ world s' = snd (get_user_details_by_accountid client account_id (world s))
      /\ resolution
           (fst (get_user_details_by_accountid client account_id (world s)))
           (fun D => lit "@" ++ D) (lit "@user_" ++ account_id) r
  end.

(** Spec 4.3: the outcome of rewriting a profile macro whose user
    reference is [u].  The account id is preferred: when present,
    [resolve_by_account_id] is called; else, when the legacy username is
    present, [resolve_by_username]; the answer decides between
    ["@<display_name>"] and the fallback ["[User Profile: <identifier>]"].
    Without a resolver, or without any identifier, no call is made and
    the fallback is used. *)
Definition profile_outcome {W} (confluence_client : option (ConfluenceClient W))
  (u : PageElement) (s s' : St W) (r : pystr) : Prop :=
  let account_id := get u (lit "ri:account-id") in
  let userkey := get u (lit "ri:userkey") in
  match confluence_client with
  | None =>
      r = profile_fallback (identifier account_id userkey)
      /\ world s' = world s /\ calls (trace s') = calls (trace s)
  | Some client =>
      if truthy_opt account_id then
        calls (trace s')
        = calls (trace s) ++ [Called_by_accountid (unwrap account_id)]
        /\ world s'
           = snd (get_user_details_by_accountid client
                    (unwrap account_id) (world s))
        /\ resolution
             (fst (get_user_details_by_accountid client
                     (unwrap account_id) (world s)))
             (fun D => lit "@" ++ D)
             (profile_fallback (unwrap account_id)) r
      else if truthy_opt userkey then
        calls (trace s')
        = calls (trace s) ++ [Called_by_username (unwrap userkey)]
        /\ world s'
           = snd (get_user_details_by_username client
                    (unwrap userkey) (world s))
        /\ resolution
             (fst (get_user_details_by_username client
                     (unwrap userkey) (world s)))
             (fun D => lit "@" ++ D)
             (profile_fallback (unwrap userkey)) r
      else
        r = profile_fallback (identifier account_id userkey)
        /\ world s' = world s /\ calls (trace s') = calls (trace s)
  end.

(** Spec 4.4b: "nested inside an image macro or inside a link macro",
    for a node whose ancestors are named [anc]. *)
Definition nested_in_image_or_link (anc : list pystr) : bool :=
  has_parent anc (lit "ac:image") || has_parent anc (lit "ac:link").






(** A link the user-mention pass rewrites, and a profile macro. *)
Definition is_mention (n : PageElement) : bool :=
  matches (lit "ac:link") [] n
  && match account_id_of (find n (lit "ri:user") []) with
     | Some _ => true
     | None => false
     end.

Definition is_profile (n : PageElement) : bool :=
  matches (lit "ac:structured-macro") [(lit "ac:name", lit "profile")] n.




(** ** Documents whose macros are not nested *)

(** The macro elements: links, image macros and profile macros. *)
Definition is_macro (n : PageElement) : bool :=
  matches (lit "ac:link") [] n || matches (lit "ac:image") [] n || is_profile n.



(** What a rewrite puts in place of a macro: a text node, an [img] or
    an [a] element. *)
Definition leaf (r : PageElement) : Prop :=
  (exists t, r = NavigableString t)
  \/ (exists src alt, r = new_img src alt)
  \/ (exists href text, r = new_a href text).

(** A pass with loop body [h] leaves [n] as it is, without effect. *)
Definition fixed {W} (h : list pystr -> PageElement -> M W (option PageElement))
  (anc : list pystr) (n : PageElement) : Prop :=
  forall s, visit h anc n s = (n, s).

(** [c'] is what the pass makes of [c], from some state. *)
Definition out {W} (h : list pystr -> PageElement -> M W (option PageElement))
  (anc : list pystr) (c c' : PageElement) : Prop :=
  exists s, c' = fst (visit h anc c s).

(** None of the five passes changes [n]. *)
Definition settled {W} (client : option (ConfluenceClient W))
  (page_id base_url : pystr) (anc : list pystr) (n : PageElement) : Prop :=
  fixed (user_mention_step client) anc n
  /\ fixed (user_profile_step client) anc n
  /\ fixed (ac_image_step (W := W) page_id base_url) anc n
  /\ fixed (ri_attachment_step (W := W) page_id base_url) anc n
  /\ fixed (ac_link_attachment_step (W := W) page_id base_url) anc n.


(** ** A serializer and a parser for the examples *)

(** The markup of a node: [<name k="v" ...>children</name>]. *)
Fixpoint render (n : PageElement) : pystr :=
  match n with
  | NavigableString t => t
  | Tag name attrs cs =>
      lit "<" ++ name
      ++ flat_map (fun kv => lit " " ++ fst kv ++ lit "=" ++ [34] ++ snd kv ++ [34])
           attrs
      ++ lit ">" ++ flat_map render cs ++ lit "</" ++ name ++ lit ">"
  end.

(** [str(soup)]: the markup of the children of the document object. *)
Definition render_soup (soup : PageElement) : result pystr :=
  match soup with
  | NavigableString t => Ok t
  | Tag _ _ cs => Ok (flat_map render cs)
  end.

(** A parser that reads the documents [docs] back from their markup. *)
Definition parser_of (docs : list PageElement) (html : pystr)
  : result PageElement :=
  match List.find (fun t => match render_soup t with
                            | Ok h => pystr_eqb h html
                            | Raise _ => false
                            end) docs with
  | Some t => Ok t
  | None => Raise (Exception (lit "unknown document"))
  end.

(** A Markdown converter that keeps the markup. *)
Definition sample_md (html : pystr) : result pystr := Ok html.

(* ================================================================== *)
(** * Part IV-c: sample documents and collaborators *)
(* ================================================================== *)

(** A world without state, and a run that starts with an empty trace. *)
Definition s0 : St unit := mkSt tt [].

(** A resolver that knows every account id as "Bob" and fails on
    usernames. *)
Definition sample_client : ConfluenceClient unit :=
  mkClient
    (fun _ w => (Ok [(lit "displayName", lit "Bob")], w))
    (fun _ w => (Raise (Exception (lit "boom")), w)).

Definition document (cs : list PageElement) : PageElement :=
  Tag (lit "[document]") [] cs.
Definition ri_user (account_id : pystr) : PageElement :=
  Tag (lit "ri:user") [(lit "ri:account-id", account_id)] [].
Definition ri_attachment (filename : pystr) : PageElement :=
  Tag (lit "ri:attachment") [(lit "ri:filename", filename)] [].
Definition ac_link (cs : list PageElement) : PageElement :=
  Tag (lit "ac:link") [] cs.
Definition ac_image (cs : list PageElement) : PageElement :=
  Tag (lit "ac:image") [] cs.
Definition ac_parameter (name : pystr) (cs : list PageElement) : PageElement :=
  Tag (lit "ac:parameter") [(lit "ac:name", name)] cs.
Definition profile_macro (cs : list PageElement) : PageElement :=
  Tag (lit "ac:structured-macro") [(lit "ac:name", lit "profile")] cs.

(** [<ac:link><ri:user ri:account-id="u1"/></ac:link>] *)
Definition sample_mention : PageElement := ac_link [ri_user (lit "u1")].

(** A profile macro for account id [u1]. *)
Definition sample_profile : PageElement :=
  profile_macro [ac_parameter (lit "user") [ri_user (lit "u1")]].


(** An image macro with a title. *)
Definition sample_image_title : PageElement :=
  ac_image [ri_attachment (lit "diagram.png");
            ac_parameter (lit "title") [NavigableString (lit "Main Dashboard")]].



(** A link whose first user reference, without account id, sits in an
    image macro, followed by a user reference with an account id. *)
Definition sample_nested : PageElement :=
  document
    [ac_link [ac_image [Tag (lit "ri:user") [] [];
                        ri_attachment (lit "f.png")];
              ri_user (lit "u1")]].

Definition sample_base : BasePreprocessor :=
  BasePreprocessor_init (lit "https://h").

(** What the first run makes of [sample_nested]. *)
Definition sample_nested_once : PageElement :=
  fst (process_soup sample_base sample_nested (Some sample_client)
         (Some (lit "12345")) true s0).

(** A document whose macros are not nested. *)
Definition sample_flat : PageElement :=
  document
    [Tag (lit "p") [] [sample_mention; NavigableString (lit " wrote ")];
     sample_image_title;
     ac_link [ri_attachment (lit "report.pdf")];
     ri_attachment (lit "data export.csv");
     sample_profile].

Definition sample_flat_once : PageElement :=
  fst (process_soup sample_base sample_flat (Some sample_client)
         (Some (lit "12345")) true s0).

(** The markup of a sample document. *)
Definition markup_of (soup : PageElement) : pystr :=
  match render_soup soup with Ok h => h | Raise _ => [] end.


(** The state after the first run on a sample document. *)
Definition state_once (soup : PageElement) : St unit :=
  snd (process_soup sample_base soup (Some sample_client)
         (Some (lit "12345")) true s0).

(** What a second run makes of [sample_nested_once]. *)
Definition sample_nested_twice : PageElement :=
  fst (process_soup sample_base sample_nested_once (Some sample_client)
         (Some (lit "12345")) true (state_once sample_nested)).

(* ================================================================== *)
(** * Part IV-d: the rest of the two modules *)
(* ================================================================== *)

(** ** [BasePreprocessor._convert_html_to_markdown] *)

(** [re.search(r"<[^>]+>", text)] finds a match: somewhere a ['<'], then
    at least one character that is not ['>'], then a ['>'].  From a ['<']
    the search succeeds when the next character is not ['>'] and a ['>']
    comes later. *)
Fixpoint re_search_tag (text : pystr) : bool :=
  match text with
  | [] => false
  | c :: rest =>
      ((c =? 60)
       && match rest with
          | d :: rest' => negb (d =? 62) && mem 62 rest'
          | [] => false
          end)
      || re_search_tag rest
  end.

Section ConvertHtml.

Variable W : Type.
(** [BeautifulSoup(markup, "html.parser")], [tag.decode_contents()] and
    [markdownify]. *)
Variable BeautifulSoup : pystr -> result PageElement.
Variable decode_contents : PageElement -> result pystr.
Variable md : pystr -> result pystr.

(** The body of the [try] of [_convert_html_to_markdown]. *)
Definition convert_html (text : pystr) : result pystr :=
  match BeautifulSoup (lit "<div>" ++ text ++ lit "</div>") with
  | Raise e => Raise e
  | Ok soup =>
      (* html = str(soup.div.decode_contents()) if soup.div else text *)
      match match find soup (lit "div") [] with
            | Some div => decode_contents div
            | None => Ok text
            end with
      | Raise e => Raise e
      | Ok html => md html
      end
  end.

(** [_convert_html_to_markdown(self, text)] *)
Definition _convert_html_to_markdown (text : pystr) : M W pystr :=
  if re_search_tag text then
    match convert_html text with
    | Ok converted => ret converted
    | Raise e =>
        log WARNING (lit "Error converting HTML to markdown: " ++ str_of_exn e) ;;;
        ret text
    end
  else ret text.

End ConvertHtml.

(** ** [ConfluencePreprocessor.markdown_to_confluence_storage] *)

(** What a run does to the file system and the logger. *)
Inductive fs_event : Type :=
| Mkdtemp (dir : pystr)
| Rmtree (dir : pystr)
| LogError (msg : pystr)
| LogException (e : exn).

Section MarkdownToStorage.

(** The element tree of [md2conf]. *)
Variable E : Type.
(** The collaborators: [markdown_to_html], the outcome of
    [tempfile.mkdtemp()], [elements_from_string], the construction of the
    converter (options, path and root directory in the temporary
    directory) followed by [converter.visit(root)], which leaves the
    root rewritten, and [elements_to_string]. *)
Variable markdown_to_html : pystr -> result pystr.
Variable mkdtemp : result pystr.
Variable elements_from_string : pystr -> result E.
Variable converter_visit : bool -> pystr -> E -> result E.
Variable elements_to_string : E -> result pystr.

(** The [except Exception as e] branch, reached with the events [t]
    behind it: "fall back to a simpler method if the conversion fails". *)
Definition storage_fallback (markdown_content : pystr) (e : exn)
  (t : list fs_event) : result pystr * list fs_event :=
  let t' :=
    t ++ [LogError (lit "Error converting markdown to Confluence storage format: "
                    ++ str_of_exn e);
          LogException e] in
  match markdown_to_html markdown_content with
  | Ok html_content => (Ok (lit "<p>" ++ html_content ++ lit "</p>"), t')
  | Raise e' => (Raise e', t')
  end.

(** [markdown_to_confluence_storage(self, markdown_content, *,
    enable_heading_anchors)] *)
Definition markdown_to_confluence_storage (markdown_content : pystr)
  (enable_heading_anchors : bool) : result pystr * list fs_event :=
  match markdown_to_html markdown_content with
  | Raise e => storage_fallback markdown_content e []
  | Ok html_content =>
      match mkdtemp with
      | Raise e => storage_fallback markdown_content e []
      | Ok temp_dir =>
          (* the inner [try], whose [finally] removes the directory *)
          let converted :=
            match elements_from_string html_content with
            | Raise e => Raise e
            | Ok root =>
                match converter_visit enable_heading_anchors temp_dir root with
                | Raise e => Raise e
                | Ok root' => elements_to_string root'
                end
            end in
          let t := [Mkdtemp temp_dir; Rmtree temp_dir] in
          match converted with
          | Ok storage_format => (Ok storage_format, t)
          | Raise e => storage_fallback markdown_content e t
          end
      end
  end.

End MarkdownToStorage.

(** ** Notions for the passes, one at a time *)

(** The nodes of a subtree, in document order. *)
Definition nodes (n : PageElement) : list PageElement := n :: descendants n.

(** The test the mention, image and link passes share: the first
    descendant named [X] exists and its attribute [K] is not empty. *)
Definition first_ok (X K : pystr) (n : PageElement) : bool :=
  match find n X [] with
  | Some u => truthy_opt (get u K)
  | None => false
  end.

(** An element named [N] that passes that test. *)
Definition rewritable (N X K : pystr) (n : PageElement) : bool :=
  matches N [] n && first_ok X K n.

(** Among the nodes [l]: is there a node named [X], and is the
    attribute [K] of the first one not empty? *)
Definition first_status (X K : pystr) (l : list PageElement) : option bool :=
  match filter (matches X []) l with
  | [] => None
  | u :: _ => Some (truthy_opt (get u K))
  end.

(** An attachment reference the bare-reference pass rewrites, under the
    ancestors [anc]. *)
Definition bare_reference (anc : list pystr) (n : PageElement) : bool :=
  matches (lit "ri:attachment") [] n
  && truthy_opt (get n (lit "ri:filename"))
  && negb (nested_in_image_or_link anc).

(** The calls the user-mention pass owes to the nodes [l]: one for each
    mention link, with its account id. *)
Definition mention_calls (l : list PageElement) : list event :=
  flat_map (fun d =>
              if matches (lit "ac:link") [] d then
                match account_id_of (find d (lit "ri:user") []) with
                | Some account_id => [Called_by_accountid account_id]
                | None => []
                end
              else []) l.

(** The calls the profile pass owes to the nodes [l]: for each profile
    macro with a user reference, one by account id when the reference has
    one, else one by username when it has a userkey. *)
Definition profile_calls (l : list PageElement) : list event :=
  flat_map (fun d =>
              if is_profile d then
                match user_reference d with
                | Some u =>
                    let account_id := get u (lit "ri:account-id") in
                    let userkey := get u (lit "ri:userkey") in
                    if truthy_opt account_id
                    then [Called_by_accountid (unwrap account_id)]
                    else if truthy_opt userkey
                         then [Called_by_username (unwrap userkey)]
                         else []
                | None => []
                end
              else []) l.

(** A document without links, image macros, profile macros and
    attachment references. *)
Definition plain_html (soup : PageElement) : bool :=
  forallb (fun d => negb (is_macro d)
                    && negb (matches (lit "ri:attachment") [] d))
    (descendants soup).

(** A sample document without macros: [<p class="x">hello <b>world</b></p>]. *)
Definition sample_plain : PageElement :=
  document [Tag (lit "p") [(lit "class", lit "x")]
              [NavigableString (lit "hello ");
               Tag (lit "b") [] [NavigableString (lit "world")]]].

(* ================================================================== *)
(** * Part V: lemmas and theorems *)
(* ================================================================== *)

(** ** Strings *)

Lemma pystr_eqb_eq (a b : pystr) : pystr_eqb a b = true <-> a = b.
Proof.
  revert b; induction a as [|x a IH]; intros [|y b]; simpl;
    try (split; [discriminate | congruence]); try tauto.
  rewrite andb_true_iff, N.eqb_eq, IH.
  split; [intros [-> ->]; reflexivity | intros H; inversion H; auto].
Qed.

Lemma pystr_eqb_refl (a : pystr) : pystr_eqb a a = true.
Proof. apply pystr_eqb_eq; reflexivity. Qed.

Lemma dropwhile_split (p : N -> bool) (s : list N) :
  exists t, s = t ++ dropwhile p s /\ forallb p t = true.
Proof.
  induction s as [|c s [t [E F]]]; simpl.
  - exists []; auto.
  - destruct (p c) eqn:Hc.
    + exists (c :: t); simpl; rewrite Hc, F; split; [congruence | reflexivity].
    + exists []; auto.
Qed.

Lemma dropwhile_head (p : N -> bool) (s : list N) c r :
  dropwhile p s = c :: r -> p c = false.
Proof.
  induction s as [|x s IH]; simpl; [discriminate|].
  destruct (p x) eqn:Hx; [exact IH | intros H; inversion H; subst; exact Hx].
Qed.

Lemma forallb_rev (p : N -> bool) (l : list N) :
  forallb p (rev l) = forallb p l.
Proof.
  induction l as [|x l IH]; simpl; [reflexivity|].
  rewrite forallb_app, IH; simpl. rewrite andb_true_r. apply andb_comm.
Qed.

(** [rstrip] removes a suffix made of stripped characters... *)
Lemma rstrip_split (p : N -> bool) (s : list N) :
  exists t, s = rstrip p s ++ t /\ forallb p t = true.
Proof.
  unfold rstrip. destruct (dropwhile_split p (rev s)) as [t [E F]].
  exists (rev t). split.
  - rewrite <- rev_app_distr, <- E, rev_involutive; reflexivity.
  - rewrite forallb_rev; exact F.
Qed.

(** ... and what is left does not end in one. *)
Lemma rstrip_last (p : N -> bool) (s : list N) r c :
  rstrip p s = r ++ [c] -> p c = false.
Proof.
  unfold rstrip. intros H.
  apply (f_equal (@rev N)) in H. rewrite rev_involutive, rev_app_distr in H.
  simpl in H. eapply dropwhile_head; eauto.
Qed.

Lemma rstrip_nil_all (p : N -> bool) (s : list N) :
  rstrip p s = [] -> forallb p s = true.
Proof.
  intros H. destruct (rstrip_split p s) as [t [E F]].
  rewrite H in E; simpl in E; subst; exact F.
Qed.

(** ** UTF-8 and [quote] *)





#[local] Opaque N.lor N.shiftr N.land.


#[local] Transparent N.lor N.shiftr N.land.

Lemma quote_from_bytes_flat_map (bs : pybytes) :
  quote_from_bytes bs (lit "/") = flat_map (quoter (lit "/")) bs.
Proof.
  unfold quote_from_bytes. destruct bs as [|b bs]; [reflexivity|].
  destruct (rstrip (in_safe (lit "/")) (b :: bs)) eqn:E; [|reflexivity].
  apply rstrip_nil_all in E. revert E. generalize (b :: bs) as l.
  induction l as [|x l IH]; simpl; [reflexivity|].
  rewrite andb_true_iff; intros [Hx Hl]. unfold quoter at 1. rewrite Hx.
  simpl. f_equal. auto.
Qed.



(** ** The base URL kept by the constructor (claim C9) *)

Lemma all_slash_repeat (t : list N) :
  forallb (fun c => mem c (lit "/")) t = true -> t = repeat 47 (List.length t).
Proof.
  induction t as [|c t IH]; simpl; [reflexivity|].
  rewrite andb_true_iff, orb_false_r, N.eqb_eq. intros [-> H].
  f_equal; auto.
Qed.

(** C9, as the specification words it, fails: with two trailing slashes
    the constructor removes both, where stripping one slash would keep
    one. *)
Lemma C9_counterexample :
  base_url (BasePreprocessor_init (lit "https://h//"))
  <> strip_one_trailing_slash (lit "https://h//").
Proof. vm_compute. discriminate. Qed.

(** C9, amended: the constructor strips every trailing slash.  The
    stored base is the input without its whole run of trailing ['/']
    characters: the input is the stored base followed by [k] slashes, and
    the stored base does not end in a slash. *)
Theorem C9_base_url_without_trailing_slashes (url : pystr) :
  let stored := base_url (BasePreprocessor_init url) in
  (exists k, url = stored ++ repeat 47 k)
  /\ (forall r, stored <> r ++ [47]).
Proof.
  unfold BasePreprocessor_init; simpl.
  destruct url as [|c url]; simpl.
  - split; [exists 0%nat; reflexivity | intros [|? ?]; discriminate].
  - split.
    + destruct (rstrip_split (fun c => mem c (lit "/")) (c :: url)) as [t [E F]].
      exists (List.length t). rewrite <- (all_slash_repeat _ F). exact E.
    + intros r H. apply rstrip_last in H. discriminate.
Qed.

(** ** The download URL (claim C4) *)




(** ** Resolver answers *)

Lemma calls_app (t u : list event) : calls (t ++ u) = calls t ++ calls u.
Proof. apply filter_app. Qed.

Lemma truthy_nonempty (s : pystr) : truthy s = true <-> s <> [].
Proof. destruct s; simpl; split; congruence. Qed.

Ltac run :=
  unfold bind, ret, log, emit, call_by_accountid, call_by_username; simpl.

(** Settles a [resolution] goal once the resolver's answer is known. *)
Ltac solve_resolution :=
  unfold resolution; simpl; repeat split; intros;
  repeat match goal with
    | H : Ok _ = Ok _ |- _ => injection H as H; subst
    | H : Ok _ = Raise _ |- _ => discriminate H
    | H : Raise _ = Ok _ |- _ => discriminate H
    | H1 : ?a = Some _, H2 : ?a = Some _ |- _ =>
        rewrite H1 in H2; injection H2 as H2; subst
    | H1 : ?a = None, H2 : ?a = Some _ |- _ => rewrite H1 in H2; discriminate H2
    | H1 : ?a = _, H2 : context [?a] |- _ => rewrite H1 in H2; simpl in H2
    | H : truthy ?D = false, N : ?D <> [] |- _ =>
        destruct D; [congruence | discriminate H]
    end;
  try congruence; try reflexivity.

Section UserMacros.

Variable W : Type.
Implicit Types (s : St W) (client : ConfluenceClient W).

(** What [_replace_user_mention] does with a resolver at hand: one
    call, and the answer decides between ["@" ++ D] and the fallback. *)
Lemma replace_user_mention_some user_element account_id client s :
  exists r s',
    _replace_user_mention user_element account_id (Some client) s
    = (NavigableString r, s')
    /\ calls (trace s') = calls (trace s) ++ [Called_by_accountid account_id]
    /\ world s' = snd (get_user_details_by_accountid client account_id (world s))
    /\ resolution
         (fst (get_user_details_by_accountid client account_id (world s)))
         (fun D => lit "@" ++ D) (lit "@user_" ++ account_id) r.
Proof.
  unfold _replace_user_mention, _use_fallback_user_mention. run.
  destruct (get_user_details_by_accountid client account_id (world s))
    as [[d|e] w'] eqn:E; simpl.
  - unfold dict_get_default.
    destruct (dict_get d (lit "displayName")) as [D|] eqn:HD;
      [destruct (truthy D) eqn:HT|]; simpl;
      eexists; eexists; (split; [reflexivity|]); simpl;
      rewrite calls_app; (split; [reflexivity|]); (split; [reflexivity|]);
      solve_resolution.
  - eexists; eexists; (split; [reflexivity|]); simpl.
    rewrite !calls_app; simpl. rewrite app_nil_r.
    (split; [reflexivity|]); (split; [reflexivity|]); solve_resolution.
Qed.

(** C2: a matched user-mention link with account id [account_id] is
    replaced, whole, by a text node.  Without a resolver the text is
    exactly ["@user_<account_id>"] and nothing else happens.  With a
    resolver, [get_user_details_by_accountid] is called once (no
    retry); a non-empty display name [D] gives exactly ["@D"]; a raised
    exception, or details without a non-empty display name, give
    exactly ["@user_<account_id>"]. *)
Theorem C2_user_mention_replacement
  (confluence_client : option (ConfluenceClient W)) anc link account_id s :
  matches (lit "ac:link") [] link = true ->
  account_id_of (find link (lit "ri:user") []) = Some account_id ->
  exists r s',
    user_mention_step confluence_client anc link s
    = (Some (NavigableString r), s')
    /\ mention_outcome confluence_client account_id s s' r.
Proof.
  intros Hm Ha. unfold user_mention_step. rewrite Hm, Ha.
  destruct confluence_client as [client|].
  - destruct (replace_user_mention_some link account_id client s)
      as (r & s' & E & H).
    exists r, s'. split; [|exact H]. unfold bind, ret. rewrite E. reflexivity.
  - eexists; eexists; split; [reflexivity | split; reflexivity].
Qed.

(** The profile macro, case by case. *)
Lemma replace_profile_macro_malformed
  (confluence_client : option (ConfluenceClient W)) macro s :
  user_reference macro = None ->
  exists s',
    replace_profile_macro confluence_client macro s
    = (NavigableString MALFORMED, s')
    /\ world s' = world s /\ calls (trace s') = calls (trace s).
Proof.
  unfold user_reference, replace_profile_macro. intros H.
  destruct (find macro (lit "ac:parameter") _) as [p|]; [rewrite H|];
    run; eexists; (split; [reflexivity|]); simpl;
    rewrite calls_app, app_nil_r; split; reflexivity.
Qed.

Lemma replace_profile_macro_wellformed
  (confluence_client : option (ConfluenceClient W)) macro s u :
  user_reference macro = Some u ->
  exists r s',
    replace_profile_macro confluence_client macro s = (NavigableString r, s')
    /\ profile_outcome confluence_client u s s' r.
Proof.
  unfold user_reference, replace_profile_macro. intros H.
  destruct (find macro (lit "ac:parameter") _) as [p|]; [|discriminate].
  rewrite H. clear H. unfold profile_outcome. cbv zeta.
  set (account_id := get u (lit "ri:account-id")).
  set (userkey := get u (lit "ri:userkey")).
  unfold identifier, py_or, fetch_display_name.
  destruct confluence_client as [client|].
  - destruct (truthy_opt account_id) eqn:Ta.
    + rewrite ?Ta. run.
      destruct (get_user_details_by_accountid client (unwrap account_id)
                  (world s)) as [[d|e] w'] eqn:E; simpl.
      * destruct (dict_get d (lit "displayName")) as [D|] eqn:HD;
          [simpl; destruct (truthy D) eqn:HT|]; simpl;
          eexists; eexists; (split; [reflexivity|]); simpl;
          rewrite ?calls_app; simpl; rewrite ?app_nil_r;
          (split; [reflexivity|]); (split; [reflexivity|]);
          solve_resolution.
      * eexists; eexists; (split; [reflexivity|]); simpl;
          rewrite ?calls_app; simpl; rewrite ?app_nil_r.
        (split; [reflexivity|]); (split; [reflexivity|]); solve_resolution.
    + destruct (truthy_opt userkey) eqn:Tu.
      * rewrite ?Tu. run.
        destruct (get_user_details_by_username client (unwrap userkey)
                    (world s)) as [[d|e] w'] eqn:E; simpl.
        -- destruct (dict_get d (lit "displayName")) as [D|] eqn:HD;
             [simpl; destruct (truthy D) eqn:HT|]; simpl;
             eexists; eexists; (split; [reflexivity|]); simpl;
             rewrite ?calls_app; simpl; rewrite ?app_nil_r;
             (split; [reflexivity|]); (split; [reflexivity|]);
             solve_resolution.
        -- eexists; eexists; (split; [reflexivity|]); simpl;
             rewrite ?calls_app; simpl; rewrite ?app_nil_r.
           (split; [reflexivity|]); (split; [reflexivity|]); solve_resolution.
      * rewrite ?Tu. run.
        eexists; eexists; (split; [reflexivity|]); simpl;
          rewrite ?calls_app; simpl; rewrite ?app_nil_r.
        repeat split.
  - run. destruct (truthy_opt account_id) eqn:Ta; simpl.
    + rewrite ?Ta. eexists; eexists; (split; [reflexivity|]); simpl;
        rewrite ?calls_app; simpl; rewrite ?app_nil_r. repeat split.
    + destruct (truthy_opt userkey) eqn:Tu;
        eexists; eexists; (split; [reflexivity|]); simpl;
        rewrite ?calls_app; simpl; rewrite ?app_nil_r; repeat split.
Qed.

(** C1: the rewrite of a profile macro follows the ordered policy.
    Without a [user] parameter, or with one that wraps no user
    reference, the macro becomes ["[User Profile Macro (Malformed)]"],
    whatever the resolver, and no call is made.  On a well-formed
    reference, [get_user_details_by_accountid] is called when an account
    id is present, else [get_user_details_by_username] when a userkey
    is; a display name gives ["@<display_name>"]; an exception, an
    absent resolver or an answer without display name give
    ["[User Profile: <identifier>]"], the identifier being the account
    id if present, else the userkey, else ["unknown_user"]. *)
Theorem C1_profile_macro_policy
  (confluence_client : option (ConfluenceClient W)) anc macro s :
  matches (lit "ac:structured-macro") [(lit "ac:name", lit "profile")] macro
  = true ->
  (user_reference macro = None ->
     exists s',
       user_profile_step confluence_client anc macro s
       = (Some (NavigableString MALFORMED), s')
       /\ world s' = world s /\ calls (trace s') = calls (trace s))
  /\ (forall u, user_reference macro = Some u ->
        exists r s',
          user_profile_step confluence_client anc macro s
          = (Some (NavigableString r), s')
          /\ profile_outcome confluence_client u s s' r).
Proof.
  intros Hm. unfold user_profile_step. rewrite Hm. split.
  - intros H.
    destruct (replace_profile_macro_malformed confluence_client macro s H)
      as (s' & E & Hw).
    exists s'. split; [|exact Hw]. unfold bind, ret. rewrite E. reflexivity.
  - intros u H.
    destruct (replace_profile_macro_wellformed confluence_client macro s H)
      as (r & s' & E & Ho).
    exists r, s'. split; [|exact Ho]. unfold bind, ret. rewrite E. reflexivity.
Qed.

End UserMacros.

Lemma C2_user_mention_replacement_witness :
  matches (lit "ac:link") [] sample_mention = true
  /\ account_id_of (find sample_mention (lit "ri:user") []) = Some (lit "u1")
  /\ exists r s',
       user_mention_step (Some sample_client) [] sample_mention s0
       = (Some (NavigableString r), s')
       /\ mention_outcome (Some sample_client) (lit "u1") s0 s' r.
Proof.
  split; [reflexivity|]. split; [reflexivity|].
  exact (C2_user_mention_replacement (Some sample_client) []
           sample_mention s0 eq_refl eq_refl).
Defined.

Lemma C1_profile_macro_policy_witness :
  matches (lit "ac:structured-macro") [(lit "ac:name", lit "profile")]
    sample_profile = true
  /\ user_reference sample_profile = Some (ri_user (lit "u1"))
  /\ exists r s',
       user_profile_step (Some sample_client) [] sample_profile s0
       = (Some (NavigableString r), s')
       /\ profile_outcome (Some sample_client) (ri_user (lit "u1")) s0 s' r.
Proof.
  split; [reflexivity|]. split; [reflexivity|].
  exact (proj2 (C1_profile_macro_policy (Some sample_client) []
                  sample_profile s0 eq_refl) _ eq_refl).
Defined.

(** ** Trees and passes *)

Section TreeInduction.

Variable P : PageElement -> Prop.
Hypothesis Htext : forall s, P (NavigableString s).
Hypothesis Htag : forall name attrs cs, Forall P cs -> P (Tag name attrs cs).

Lemma PageElement_ind_all : forall n, P n.
Proof.
  fix IH 1. intros [s|name attrs cs]; [apply Htext | apply Htag].
  induction cs as [|c cs IHcs]; constructor; [apply IH | exact IHcs].
Qed.

End TreeInduction.

Lemma in_descendants_child name attrs cs c d :
  In c cs -> In d (c :: descendants c) -> In d (descendants (Tag name attrs cs)).
Proof.
  intros Hc Hd. simpl. apply in_flat_map. exists c. split; assumption.
Qed.

Lemma has_parent_cons anc nm x :
  has_parent anc x = true -> has_parent (nm :: anc) x = true.
Proof. intros H. simpl. rewrite H. apply orb_true_r. Qed.

Section PassLemmas.

Variable W : Type.
Variable handler : list pystr -> PageElement -> M W (option PageElement).

Lemma visit_tag anc name attrs cs s :
  visit handler anc (Tag name attrs cs) s
  = let (r, s1) := handler anc (Tag name attrs cs) s in
    match r with
    | Some n' => let (_, s2) := visit_all handler [name] cs s1 in (n', s2)
    | None =>
        let (cs', s2) := visit_all handler (name :: anc) cs s1 in
        (Tag name attrs cs', s2)
    end.
Proof.
  cbn [visit]. unfold bind.
  destruct (handler anc (Tag name attrs cs) s) as [[n'|] s1]; reflexivity.
Qed.

Lemma visit_all_cons anc c l s :
  visit_all handler anc (c :: l) s
  = let (c', s1) := visit handler anc c s in
    let (l', s2) := visit_all handler anc l s1 in
    (c' :: l', s2).
Proof.
  cbn [visit_all]. unfold bind, ret.
  destruct (visit handler anc c s) as [c' s1].
  destruct (visit_all handler anc l s1); reflexivity.
Qed.

(** A pass changes nothing, and has no effect, in a subtree where its
    loop body never replaces: [Q] describes the ancestor lists at which
    this is known. *)
Lemma visit_fixed (Q : list pystr -> Prop)
  (Hcons : forall anc nm, Q anc -> Q (nm :: anc)) (n : PageElement) :
  (forall d, In d (n :: descendants n) ->
             forall anc s, Q anc -> handler anc d s = (None, s)) ->
  forall anc s, Q anc -> visit handler anc n s = (n, s).
Proof.
  induction n as [t|name attrs cs IH] using PageElement_ind_all;
    intros Hn anc s HQ; [reflexivity|].
  rewrite visit_tag, (Hn _ (or_introl eq_refl) anc s HQ).
  assert (Hcs : forall a s1, Q a -> visit_all handler a cs s1 = (cs, s1)).
  { assert (Hd : forall c d, In c cs -> In d (c :: descendants c) ->
                 forall anc s, Q anc -> handler anc d s = (None, s)).
    { intros c d Hc Hd. apply Hn. right.
      eapply in_descendants_child; eassumption. }
    clear Hn anc s HQ. induction IH as [|c cs Hc _ IHcs]; intros a s1 Ha;
      [reflexivity|].
    rewrite visit_all_cons, Hc; [| |exact Ha].
    - rewrite IHcs; [reflexivity | | exact Ha].
      intros c' d Hc'. apply Hd. right; exact Hc'.
    - intros d. apply Hd. left; reflexivity. }
  rewrite Hcs by (apply Hcons; exact HQ). reflexivity.
Qed.

Lemma visit_all_fixed (Q : list pystr -> Prop)
  (Hcons : forall anc nm, Q anc -> Q (nm :: anc)) (l : list PageElement) :
  (forall c d, In c l -> In d (c :: descendants c) ->
               forall anc s, Q anc -> handler anc d s = (None, s)) ->
  forall anc s, Q anc -> visit_all handler anc l s = (l, s).
Proof.
  induction l as [|c l IH]; intros Hl anc s HQ; [reflexivity|].
  rewrite visit_all_cons.
  rewrite (@visit_fixed Q Hcons c); [| |exact HQ].
  - rewrite IH; [reflexivity | | exact HQ].
    intros c' d Hc'. apply Hl. right; exact Hc'.
  - intros d Hd. apply (Hl c d); [left; reflexivity | exact Hd].
Qed.

End PassLemmas.

(** ** The bare-reference pass and nesting (claim C7) *)

Section BareReferences.

Variable W : Type.
Variables page_id base_url : pystr.

Lemma nested_cons anc nm :
  nested_in_image_or_link anc = true ->
  nested_in_image_or_link (nm :: anc) = true.
Proof.
  unfold nested_in_image_or_link. rewrite !orb_true_iff.
  intros [H|H]; [left|right]; apply has_parent_cons; exact H.
Qed.

Lemma ri_attachment_step_nested anc n (s : St W) :
  nested_in_image_or_link anc = true ->
  ri_attachment_step page_id base_url anc n s = (None, s).
Proof.
  unfold nested_in_image_or_link, ri_attachment_step. intros H.
  destruct (matches (lit "ri:attachment") [] n); [|reflexivity].
  destruct (negb (truthy_opt (get n (lit "ri:filename")))); [reflexivity|].
  destruct (has_parent anc (lit "ac:image")); [reflexivity|].
  simpl in H. rewrite H. reflexivity.
Qed.

Lemma visit_ri_attachment_nested anc n (s : St W) :
  nested_in_image_or_link anc = true ->
  visit (ri_attachment_step page_id base_url) anc n s = (n, s).
Proof.
  intros H.
  apply (@visit_fixed W _ (fun a => nested_in_image_or_link a = true));
    [exact nested_cons | | exact H].
  intros d _ a s1 Ha. apply ri_attachment_step_nested; exact Ha.
Qed.

(** What the image pass puts in place of a matched image macro: an
    [img] element or the placeholder text.  Neither holds an attachment
    reference any more. *)
Lemma ac_image_step_matched anc image_macro a filename (s : St W) :
  matches (lit "ac:image") [] image_macro = true ->
  find image_macro (lit "ri:attachment") [] = Some a ->
  get a (lit "ri:filename") = Some filename -> filename <> [] ->
  exists r s1,
    ac_image_step page_id base_url anc image_macro s = (Some r, s1)
    /\ ((exists src alt, r = new_img src alt)
        \/ r = NavigableString (lit "[Image attachment]")).
Proof.
  intros Hm Hf Hg Hne. unfold ac_image_step. rewrite Hm, Hf, Hg.
  apply truthy_nonempty in Hne. simpl. rewrite Hne. simpl.
  destruct (_construct_attachment_download_url base_url page_id filename)
    as [url|e].
  - destruct (truthy (alt_text_of _)); eexists; eexists;
      (split; [reflexivity|]); left; eexists; eexists; reflexivity.
  - run. eexists; eexists; (split; [reflexivity|]). right; reflexivity.
Qed.

(** C7: the bare-reference pass leaves untouched every attachment
    reference that is nested inside an image macro or a link macro when
    the pass visits it: the loop body replaces nothing there, and the
    whole subtree comes out of the pass as it went in, without any
    effect.  A matched image macro is replaced by the image pass by a
    node that holds no attachment reference ([img] or the placeholder),
    which the bare-reference pass then leaves as it is: the reference is
    rewritten once, by the image pass only. *)
Theorem C7_nested_references_untouched (anc : list pystr) :
  nested_in_image_or_link anc = true ->
  (forall attachment_ref (s : St W),
      ri_attachment_step page_id base_url anc attachment_ref s = (None, s))
  /\ (forall n (s : St W),
        visit (ri_attachment_step page_id base_url) anc n s = (n, s))
  /\ (forall anc1 image_macro a filename (s : St W),
        matches (lit "ac:image") [] image_macro = true ->
        find image_macro (lit "ri:attachment") [] = Some a ->
        get a (lit "ri:filename") = Some filename -> filename <> [] ->
        exists r s1,
          ac_image_step page_id base_url anc1 image_macro s = (Some r, s1)
          /\ find_all r (lit "ri:attachment") [] = []
          /\ forall anc2 (s2 : St W),
               visit (ri_attachment_step page_id base_url) anc2 r s2 = (r, s2)).
Proof.
  intros H. split; [|split].
  - intros n s. apply ri_attachment_step_nested; exact H.
  - intros n s. apply visit_ri_attachment_nested; exact H.
  - intros anc1 m a f s Hm Hf Hg Hne.
    destruct (@ac_image_step_matched anc1 m a f s Hm Hf Hg Hne)
      as (r & s1 & E & [(src & alt & ->)| ->]);
      eexists; exists s1; (split; [exact E|]); split; reflexivity.
Qed.

End BareReferences.

Lemma C7_nested_references_untouched_witness :
  nested_in_image_or_link [lit "p"; lit "ac:image"; lit "[document]"] = true
  /\ visit (ri_attachment_step (lit "12345") (lit "https://h"))
       [lit "p"; lit "ac:image"; lit "[document]"]
       (ri_attachment (lit "diagram.png")) s0
     = (ri_attachment (lit "diagram.png"), s0).
Proof.
  split; [reflexivity|].
  exact (proj1 (proj2 (@C7_nested_references_untouched unit (lit "12345")
                         (lit "https://h")
                         [lit "p"; lit "ac:image"; lit "[document]"]
                         eq_refl)) _ s0).
Defined.

(** ** The image pass (claim C5) *)





(** ** The gate of the attachment rewriter (claim C6) *)

Lemma user_mention_step_none W (client : option (ConfluenceClient W)) anc d s :
  is_mention d = false -> user_mention_step client anc d s = (None, s).
Proof.
  unfold is_mention, user_mention_step.
  destruct (matches (lit "ac:link") [] d); [|reflexivity]. simpl.
  destruct (account_id_of _); [discriminate|]. intros _.
  destruct (find d (lit "ac:link-body") []) as [lb|]; [|reflexivity].
  destruct (mem 64 (get_text_strip lb)); reflexivity.
Qed.

Lemma user_profile_step_none W (client : option (ConfluenceClient W)) anc d s :
  is_profile d = false -> user_profile_step client anc d s = (None, s).
Proof. unfold is_profile, user_profile_step. intros ->. reflexivity. Qed.

Lemma run_pass_fixed W (handler : list pystr -> PageElement -> M W (option PageElement))
  soup s :
  (forall d, In d (descendants soup) -> forall anc s1, handler anc d s1 = (None, s1)) ->
  run_pass handler soup s = (soup, s).
Proof.
  destruct soup as [t|name attrs cs]; intros H; [reflexivity|].
  unfold run_pass, bind, ret.
  rewrite (@visit_all_fixed W handler (fun _ => True)); auto.
  intros c d Hc Hd anc s1 _. apply H.
  eapply in_descendants_child; eassumption.
Qed.




(** ** Failures (claim C3) and the Confluence entry point (claim C10) *)

Section Pipeline.

Variable W : Type.
Variable BeautifulSoup : pystr -> result PageElement.
Variable str_of_soup : PageElement -> result pystr.
Variable md : pystr -> result pystr.





(** C10: the Confluence entry point runs the base pipeline with the
    effective flag: the constructor's setting when the argument is
    omitted ([None]), the explicit boolean otherwise. *)
Theorem C10_confluence_effective_flag (base_url : pystr) (setting : bool)
  (proxy_host : option pystr) (proxy_port : option N)
  (proxy_base_path : option pystr)
  (html_content space_key : pystr) (confluence_client : option (ConfluenceClient W))
  (page_id : option pystr) (arg : option bool) (s : St W) :
  let self :=
    ConfluencePreprocessor_init base_url setting proxy_host proxy_port
      proxy_base_path in
  let effective := match arg with None => setting | Some b => b end in
  Confluence_process_html_content BeautifulSoup str_of_soup md self
    html_content space_key confluence_client page_id arg s
  = process_html_content BeautifulSoup str_of_soup md
      (BasePreprocessor_init base_url) html_content space_key
      confluence_client page_id effective s.
Proof.
  cbv zeta. unfold Confluence_process_html_content, bind, ret. simpl.
  destruct (process_html_content _ _ _ _ _ _ _ _ _ s) as [[[h m]|e] s'];
    reflexivity.
Qed.

End Pipeline.

(** ** Running the pipeline twice (claim C8) *)

Section OnePass.

Variable W : Type.
Variable h : list pystr -> PageElement -> M W (option PageElement).

(** Whether the loop body replaces does not depend on the state, and it
    has no effect when it does not replace. *)
Hypothesis h_none :
  forall anc n s, fst (h anc n s) = None -> forall s', h anc n s' = (None, s').
(** What it puts in place is a leaf. *)
Hypothesis h_leaf :
  forall anc n s r, fst (h anc n s) = Some r -> leaf r.

Lemma visit_kept anc name attrs cs s :
  (forall s', h anc (Tag name attrs cs) s' = (None, s')) ->
  visit h anc (Tag name attrs cs) s
  = let (cs', s2) := visit_all h (name :: anc) cs s in (Tag name attrs cs', s2).
Proof. intros H. rewrite visit_tag, H. reflexivity. Qed.

Lemma visit_all_out anc cs : forall s cs' s',
  visit_all h anc cs s = (cs', s') -> Forall2 (out h anc) cs cs'.
Proof.
  induction cs as [|c cs IH]; intros s cs' s' H.
  - cbn in H. injection H as <- _. constructor.
  - rewrite visit_all_cons in H.
    destruct (visit h anc c s) as [c' s1] eqn:Ec.
    destruct (visit_all h anc cs s1) as [l' s2] eqn:El.
    injection H as <- _. constructor.
    + exists s. rewrite Ec. reflexivity.
    + eapply IH; eassumption.
Qed.

Lemma out_kept anc name attrs cs n' :
  (forall s', h anc (Tag name attrs cs) s' = (None, s')) ->
  out h anc (Tag name attrs cs) n' ->
  exists cs', n' = Tag name attrs cs' /\ Forall2 (out h (name :: anc)) cs cs'.
Proof.
  intros H [s ->]. rewrite visit_kept by exact H.
  destruct (visit_all h (name :: anc) cs s) as [cs' s2] eqn:E.
  exists cs'. split; [reflexivity|]. eapply visit_all_out; eassumption.
Qed.

Lemma visit_all_fixed_each anc cs :
  Forall (fixed h anc) cs -> forall s, visit_all h anc cs s = (cs, s).
Proof.
  induction 1 as [|c cs Hc _ IH]; intros s; [reflexivity|].
  rewrite visit_all_cons, Hc, IH. reflexivity.
Qed.

Lemma fixed_tag anc name attrs cs :
  (forall s', h anc (Tag name attrs cs) s' = (None, s')) ->
  Forall (fixed h (name :: anc)) cs ->
  fixed h anc (Tag name attrs cs).
Proof.
  intros H Hcs s. rewrite visit_kept by exact H.
  rewrite visit_all_fixed_each by exact Hcs. reflexivity.
Qed.

Lemma out_fixed anc n n' : fixed h anc n -> out h anc n n' -> n' = n.
Proof. intros H [s ->]. rewrite H. reflexivity. Qed.


End OnePass.

Section FivePasses.

Variable W : Type.
Variable client : option (ConfluenceClient W).
Variables page_id base_url : pystr.

Local Notation "'h1'" := (user_mention_step client).
Local Notation "'h2'" := (user_profile_step client).
Local Notation "'h3'" := (ac_image_step (W := W) page_id base_url).
Local Notation "'h4'" := (ri_attachment_step (W := W) page_id base_url).
Local Notation "'h5'" := (ac_link_attachment_step (W := W) page_id base_url).

Lemma leaf_text t : leaf (NavigableString t).
Proof. left. exists t. reflexivity. Qed.

Lemma leaf_img src alt : leaf (new_img src alt).
Proof. right; left. exists src, alt. reflexivity. Qed.

Lemma leaf_a href text : leaf (new_a href text).
Proof. right; right. exists href, text. reflexivity. Qed.

Lemma replace_user_mention_text user_element account_id (s : St W) :
  exists t, fst (_replace_user_mention user_element account_id client s)
            = NavigableString t.
Proof.
  destruct client as [c|].
  - destruct (replace_user_mention_some user_element account_id c s)
      as (r & s' & E & _).
    exists r. rewrite E. reflexivity.
  - eexists. reflexivity.
Qed.

Lemma replace_profile_macro_text macro (s : St W) :
  exists t, fst (replace_profile_macro client macro s) = NavigableString t.
Proof.
  destruct (user_reference macro) as [u|] eqn:E.
  - destruct (replace_profile_macro_wellformed client macro s E)
      as (r & s' & H & _).
    exists r. rewrite H. reflexivity.
  - destruct (replace_profile_macro_malformed client macro s E) as (s' & H & _).
    eexists. rewrite H. reflexivity.
Qed.

(** *** The loop bodies decide on the tree alone *)











(** *** Leaves and quiet subtrees are left alone *)

Lemma leaf_settled anc r : leaf r -> settled client page_id base_url anc r.
Proof.
  intros [[t ->]|[(src & alt & ->)|(href & text & ->)]];
    repeat split; intros s; reflexivity.
Qed.

Lemma is_macro_children name attrs cs cs' :
  is_macro (Tag name attrs cs) = is_macro (Tag name attrs cs').
Proof. reflexivity. Qed.


Lemma not_macro_parts n :
  is_macro n = false ->
  matches (lit "ac:link") [] n = false
  /\ matches (lit "ac:image") [] n = false
  /\ is_profile n = false.
Proof.
  unfold is_macro. rewrite !orb_false_iff. tauto.
Qed.

Lemma h1_not_macro anc n s : is_macro n = false -> h1 anc n s = (None, s).
Proof.
  intros H. apply not_macro_parts in H. destruct H as (H & _ & _).
  unfold user_mention_step. rewrite H. reflexivity.
Qed.

Lemma h2_not_macro anc n s : is_macro n = false -> h2 anc n s = (None, s).
Proof.
  intros H. apply not_macro_parts in H. destruct H as (_ & _ & H).
  unfold user_profile_step. unfold is_profile in H. rewrite H. reflexivity.
Qed.

Lemma h3_not_macro anc n s : is_macro n = false -> h3 anc n s = (None, s).
Proof.
  intros H. apply not_macro_parts in H. destruct H as (_ & H & _).
  unfold ac_image_step. rewrite H. reflexivity.
Qed.

Lemma h5_not_macro anc n s : is_macro n = false -> h5 anc n s = (None, s).
Proof.
  intros H. apply not_macro_parts in H. destruct H as (H & _ & _).
  unfold ac_link_attachment_step. rewrite H. reflexivity.
Qed.







(** Once a leaf, always that leaf. *)
Lemma leaf_out (h : list pystr -> PageElement -> M W (option PageElement))
  anc x y :
  fixed h anc x -> out h anc x y -> y = x.
Proof. apply out_fixed. Qed.

(** *** One element through the five passes *)






End FivePasses.







(** ** The pipeline at work on small documents *)

(** A filename that UTF-8 cannot encode costs its image macro the
    placeholder and a warning; the image macro after it is rewritten as
    usual. *)
Example image_failure_is_contained :
  process_soup sample_base
    (document [ac_image [ri_attachment [0xD800]]; sample_image_title])
    (Some sample_client) (Some (lit "12345")) true s0
  = (document
       [NavigableString (lit "[Image attachment]");
        new_img (lit "https://h/download/attachments/12345/diagram.png")
          (lit "Main Dashboard")],
     mkSt tt
       [Logged WARNING
          (lit "Error processing ac:image macro: "
           ++ str_of_exn (UnicodeEncodeError 0xD800))]).
Proof. vm_compute. reflexivity. Qed.

(** Spec 8, properties 1, 5 and 7 on one document. *)
Example sample_flat_processed :
  markup_of sample_flat_once
  = lit "<p>@Bob wrote </p>"
    ++ lit "<img src=" ++ [34]
    ++ lit "https://h/download/attachments/12345/diagram.png" ++ [34]
    ++ lit " alt=" ++ [34] ++ lit "Main Dashboard" ++ [34] ++ lit "></img>"
    ++ lit "<a href=" ++ [34]
    ++ lit "https://h/download/attachments/12345/report.pdf" ++ [34]
    ++ lit ">report.pdf</a>"
    ++ lit "<a href=" ++ [34]
    ++ lit "https://h/download/attachments/12345/data%20export.csv" ++ [34]
    ++ lit ">data export.csv</a>"
    ++ lit "@Bob".
Proof. vm_compute. reflexivity. Qed.

(* ================================================================== *)
(** * Part VI: further properties of the two modules *)
(* ================================================================== *)

(** ** Each pass, run again on its own output *)

Section PassTwice.

Variable W : Type.
Variable h : list pystr -> PageElement -> M W (option PageElement).
(** When the loop body replaces: a test on the element and its
    ancestors. *)
Variable hit : list pystr -> PageElement -> bool.

Hypothesis hit_none :
  forall anc n s, hit anc n = false -> h anc n s = (None, s).
Hypothesis hit_some :
  forall anc n s, hit anc n = true -> exists r, fst (h anc n s) = Some r /\ leaf r.
Hypothesis leaf_fixed : forall anc r, leaf r -> fixed h anc r.
(** An element the pass keeps is not made replaceable by what the pass
    does below it. *)
Hypothesis stable :
  forall anc name attrs cs cs',
    hit anc (Tag name attrs cs) = false ->
    Forall2 (out h (name :: anc)) cs cs' ->
    hit anc (Tag name attrs cs') = false.

Lemma visit_all_each_fixed cs :
  Forall (fun c => forall anc s, fixed h anc (fst (visit h anc c s))) cs ->
  forall anc s cs' s',
    visit_all h anc cs s = (cs', s') -> Forall (fixed h anc) cs'.
Proof.
  induction 1 as [|c cs Hc _ IH]; intros anc s cs' s' E.
  - cbn in E. injection E as <- _. constructor.
  - rewrite visit_all_cons in E.
    destruct (visit h anc c s) as [c' s1] eqn:Ec.
    destruct (visit_all h anc cs s1) as [l' s2] eqn:El.
    injection E as <- _. constructor.
    + specialize (Hc anc s). rewrite Ec in Hc. exact Hc.
    + eapply IH; eassumption.
Qed.

Lemma visit_output_fixed n :
  forall anc s, fixed h anc (fst (visit h anc n s)).
Proof.
  induction n as [t|name attrs cs IH] using PageElement_ind_all;
    intros anc s.
  - intros s'. reflexivity.
  - rewrite visit_tag. destruct (hit anc (Tag name attrs cs)) eqn:Hh.
    + destruct (@hit_some anc (Tag name attrs cs) s Hh) as (r & Hr & Hl).
      destruct (h anc (Tag name attrs cs) s) as [[r'|] s1];
        simpl in Hr; [|discriminate].
      injection Hr as ->. destruct (visit_all h [name] cs s1). simpl.
      apply leaf_fixed. exact Hl.
    + rewrite hit_none by exact Hh.
      destruct (visit_all h (name :: anc) cs s) as [cs' s2] eqn:E. simpl.
      apply fixed_tag.
      * intros s'. apply hit_none. eapply stable; [exact Hh|].
        eapply visit_all_out. exact E.
      * eapply visit_all_each_fixed; eassumption.
Qed.

Lemma run_pass_twice soup s s' :
  run_pass h (fst (run_pass h soup s)) s' = (fst (run_pass h soup s), s').
Proof.
  destruct soup as [t|name attrs cs]; [reflexivity|].
  unfold run_pass at 2 3. unfold bind, ret.
  destruct (visit_all h [name] cs s) as [cs' s1] eqn:E. cbn [fst].
  unfold run_pass, bind, ret.
  rewrite (@visit_all_fixed_each W h [name] cs'); [reflexivity|].
  eapply visit_all_each_fixed; [|exact E].
  apply Forall_forall. intros c _. apply visit_output_fixed.
Qed.

End PassTwice.

(** *** The test on the first descendant survives the pass *)

Section FirstDescendant.

Variable W : Type.
Variable h : list pystr -> PageElement -> M W (option PageElement).
Variables N X K : pystr.

Hypothesis N_not_X : pystr_eqb X N = false.
Hypothesis h_keeps :
  forall anc n s, rewritable N X K n = false -> h anc n s = (None, s).

Lemma first_status_cons n l :
  first_status X K (n :: l)
  = if matches X [] n then Some (truthy_opt (get n K)) else first_status X K l.
Proof. unfold first_status. simpl. destruct (matches X [] n); reflexivity. Qed.

Lemma first_status_app l1 l2 :
  first_status X K (l1 ++ l2)
  = match first_status X K l1 with
    | None => first_status X K l2
    | Some b => Some b
    end.
Proof.
  unfold first_status. rewrite filter_app.
  destruct (filter (matches X []) l1); reflexivity.
Qed.

Lemma first_ok_status n :
  first_ok X K n
  = match first_status X K (descendants n) with
    | Some true => true
    | _ => false
    end.
Proof.
  unfold first_ok, find, find_all, first_status.
  destruct (filter (matches X []) (descendants n)) as [|u l]; simpl;
    [reflexivity|]. destruct (truthy_opt (get u K)); reflexivity.
Qed.

Lemma named_N_not_X name attrs cs :
  matches N [] (Tag name attrs cs) = true ->
  matches X [] (Tag name attrs cs) = false.
Proof.
  unfold matches. simpl. rewrite !andb_true_r. intros H.
  apply pystr_eqb_eq in H. subst name.
  destruct (pystr_eqb N X) eqn:E; [|reflexivity].
  apply pystr_eqb_eq in E. subst X. rewrite pystr_eqb_refl in N_not_X.
  discriminate.
Qed.

Lemma first_status_children cs :
  Forall (fun c => forall anc c',
              out h anc c c' ->
              first_status X K (nodes c) <> Some true ->
              first_status X K (nodes c') = first_status X K (nodes c)) cs ->
  forall anc cs',
    Forall2 (out h anc) cs cs' ->
    first_status X K (flat_map nodes cs) <> Some true ->
    first_status X K (flat_map nodes cs') = first_status X K (flat_map nodes cs).
Proof.
  induction 1 as [|c cs Hc _ IH]; intros anc cs' F Hs.
  - inversion F; subst. reflexivity.
  - inversion F as [|? c' ? l' Oc Fl]; subst. cbn [flat_map] in *.
    rewrite !first_status_app. rewrite first_status_app in Hs.
    destruct (first_status X K (nodes c)) as [[|]|] eqn:Ec.
    + congruence.
    + rewrite (Hc anc c' Oc) by congruence. reflexivity.
    + rewrite (Hc anc c' Oc) by congruence.
      apply (IH anc l' Fl). exact Hs.
Qed.

(** As long as the first [X] of a subtree is not one the test accepts,
    the pass leaves it the first [X], and brings no [X] where there was
    none. *)
Lemma first_status_kept n :
  forall anc n',
    out h anc n n' ->
    first_status X K (nodes n) <> Some true ->
    first_status X K (nodes n') = first_status X K (nodes n).
Proof.
  induction n as [t|name attrs cs IH] using PageElement_ind_all;
    intros anc n' O Hs.
  - destruct O as [s ->]. reflexivity.
  - assert (Hr : rewritable N X K (Tag name attrs cs) = false).
    { destruct (rewritable N X K (Tag name attrs cs)) eqn:E; [|reflexivity].
      exfalso. apply Hs. unfold rewritable in E. apply andb_true_iff in E.
      destruct E as [Em Ef]. unfold nodes.
      rewrite first_status_cons, (named_N_not_X _ _ _ Em).
      rewrite first_ok_status in Ef.
      destruct (first_status X K (descendants (Tag name attrs cs)))
        as [[|]|]; congruence. }
    destruct (out_kept (fun s' => @h_keeps anc (Tag name attrs cs) s' Hr) O)
      as (cs' & -> & F).
    unfold nodes in Hs |- *. rewrite !first_status_cons.
    rewrite first_status_cons in Hs.
    change (get (Tag name attrs cs') K) with (get (Tag name attrs cs) K).
    change (matches X [] (Tag name attrs cs'))
      with (matches X [] (Tag name attrs cs)).
    destruct (matches X [] (Tag name attrs cs)); [reflexivity|].
    change (descendants (Tag name attrs cs')) with (flat_map nodes cs').
    change (descendants (Tag name attrs cs)) with (flat_map nodes cs) in Hs |- *.
    eapply first_status_children; eassumption.
Qed.

Lemma rewritable_stable (anc : list pystr) name attrs cs cs' :
  rewritable N X K (Tag name attrs cs) = false ->
  Forall2 (out h (name :: anc)) cs cs' ->
  rewritable N X K (Tag name attrs cs') = false.
Proof.
  unfold rewritable. intros H F.
  change (matches N [] (Tag name attrs cs'))
    with (matches N [] (Tag name attrs cs)).
  destruct (matches N [] (Tag name attrs cs)); [|reflexivity].
  simpl in *. rewrite first_ok_status in *.
  change (descendants (Tag name attrs cs')) with (flat_map nodes cs').
  change (descendants (Tag name attrs cs)) with (flat_map nodes cs) in H.
  rewrite (@first_status_children cs) with (anc := name :: anc);
    [exact H | | exact F |].
  - apply Forall_forall. intros c _. apply first_status_kept.
  - destruct (first_status X K (flat_map nodes cs)) as [[|]|]; congruence.
Qed.

End FirstDescendant.

(** *** What a pass replaces, its output no longer holds *)

Section PassClears.

Variable W : Type.
Variable h : list pystr -> PageElement -> M W (option PageElement).
Variable hit : PageElement -> bool.

Hypothesis hit_none :
  forall anc n s, hit n = false -> h anc n s = (None, s).
Hypothesis hit_some :
  forall anc n s, hit n = true -> exists r, fst (h anc n s) = Some r /\ leaf r.
Hypothesis leaf_miss :
  forall r d, leaf r -> In d (nodes r) -> hit d = false.
Hypothesis stable :
  forall (anc : list pystr) name attrs cs cs',
    hit (Tag name attrs cs) = false ->
    Forall2 (out h (name :: anc)) cs cs' ->
    hit (Tag name attrs cs') = false.

Lemma visit_all_clears cs :
  Forall (fun c => forall anc s d,
              In d (nodes (fst (visit h anc c s))) -> hit d = false) cs ->
  forall anc s d,
    In d (flat_map nodes (fst (visit_all h anc cs s))) -> hit d = false.
Proof.
  induction 1 as [|c cs Hc _ IH]; intros anc s d Hd.
  - destruct Hd.
  - rewrite visit_all_cons in Hd.
    destruct (visit h anc c s) as [c' s1] eqn:Ec.
    destruct (visit_all h anc cs s1) as [l' s2] eqn:El.
    cbn [fst flat_map] in Hd. apply in_app_or in Hd. destruct Hd as [Hd|Hd].
    + apply (Hc anc s d). rewrite Ec. exact Hd.
    + apply (IH anc s1 d). rewrite El. exact Hd.
Qed.

Lemma visit_clears n :
  forall anc s d, In d (nodes (fst (visit h anc n s))) -> hit d = false.
Proof.
  induction n as [t|name attrs cs IH] using PageElement_ind_all;
    intros anc s d Hd.
  - apply (leaf_miss (r := NavigableString t)); [|exact Hd].
    left. exists t. reflexivity.
  - rewrite visit_tag in Hd. destruct (hit (Tag name attrs cs)) eqn:Hh.
    + destruct (@hit_some anc (Tag name attrs cs) s Hh) as (r & Hr & Hl).
      destruct (h anc (Tag name attrs cs) s) as [[r'|] s1];
        simpl in Hr; [|discriminate].
      injection Hr as ->. destruct (visit_all h [name] cs s1).
      apply (leaf_miss Hl Hd).
    + rewrite (@hit_none anc (Tag name attrs cs) s Hh) in Hd.
      destruct (visit_all h (name :: anc) cs s) as [cs' s2] eqn:E.
      destruct Hd as [<-|Hd].
      * eapply stable; [exact Hh|]. eapply visit_all_out. exact E.
      * apply (@visit_all_clears cs IH (name :: anc) s d). rewrite E. exact Hd.
Qed.

Lemma run_pass_clears soup s d :
  In d (descendants (fst (run_pass h soup s))) -> hit d = false.
Proof.
  destruct soup as [t|name attrs cs]; [intros []|].
  unfold run_pass, bind, ret. intros Hd.
  apply (@visit_all_clears cs) with (anc := [name]) (s := s).
  - apply Forall_forall. intros c _. apply visit_clears.
  - destruct (visit_all h [name] cs s). exact Hd.
Qed.

(** The loop body leaves what it puts in place, and so the pass its own
    output. *)
Lemma clears_leaf_fixed anc r : leaf r -> fixed h anc r.
Proof.
  intros L s. apply (@visit_fixed W h (fun _ => True)); auto.
  intros d Hd a s1 _. apply hit_none. apply (leaf_miss L Hd).
Qed.

Lemma run_pass_again soup s s' :
  run_pass h (fst (run_pass h soup s)) s' = (fst (run_pass h soup s), s').
Proof.
  apply (@run_pass_twice W h (fun _ => hit)).
  - intros anc n s0. apply hit_none.
  - intros anc n s0. apply hit_some.
  - apply clears_leaf_fixed.
  - apply stable.
Qed.

End PassClears.

(** *** The five passes *)

Section EachPass.

Variable W : Type.
Variable client : option (ConfluenceClient W).
Variables page_id base_url : pystr.

Lemma is_mention_rewritable n :
  is_mention n
  = rewritable (lit "ac:link") (lit "ri:user") (lit "ri:account-id") n.
Proof.
  unfold is_mention, rewritable, first_ok, account_id_of.
  destruct (matches (lit "ac:link") [] n); [|reflexivity]. simpl.
  destruct (find n (lit "ri:user") []) as [u|]; [|reflexivity].
  destruct (get u (lit "ri:account-id")) as [a|]; [|reflexivity].
  simpl. destruct (truthy a); reflexivity.
Qed.

Lemma mention_some anc n (s : St W) :
  is_mention n = true ->
  exists r, fst (user_mention_step client anc n s) = Some r /\ leaf r.
Proof.
  unfold is_mention, user_mention_step. intros H.
  apply andb_true_iff in H. destruct H as [Hm Ha]. rewrite Hm.
  destruct (account_id_of _) as [a|]; [|discriminate].
  unfold bind, ret.
  destruct (replace_user_mention_text client n a s) as [t Ht].
  destruct (_replace_user_mention n a client s) as [x s1]. simpl in *.
  subst x. eexists. split; [reflexivity|]. apply leaf_text.
Qed.

Lemma profile_some anc n (s : St W) :
  is_profile n = true ->
  exists r, fst (user_profile_step client anc n s) = Some r /\ leaf r.
Proof.
  unfold is_profile, user_profile_step. intros ->. unfold bind, ret.
  destruct (replace_profile_macro_text client n s) as [t Ht].
  destruct (replace_profile_macro client n s) as [x s1]. simpl in *.
  subst x. eexists. split; [reflexivity|]. apply leaf_text.
Qed.

Lemma image_none anc n (s : St W) :
  rewritable (lit "ac:image") (lit "ri:attachment") (lit "ri:filename") n = false ->
  ac_image_step page_id base_url anc n s = (None, s).
Proof.
  unfold rewritable, first_ok, ac_image_step.
  destruct (matches (lit "ac:image") [] n); [|reflexivity]. simpl.
  destruct (find n (lit "ri:attachment") []) as [a|]; [|reflexivity].
  intros ->. reflexivity.
Qed.

Lemma image_some anc n (s : St W) :
  rewritable (lit "ac:image") (lit "ri:attachment") (lit "ri:filename") n = true ->
  exists r, fst (ac_image_step page_id base_url anc n s) = Some r /\ leaf r.
Proof.
  unfold rewritable, first_ok, ac_image_step.
  destruct (matches (lit "ac:image") [] n); [|discriminate]. simpl.
  destruct (find n (lit "ri:attachment") []) as [a|]; [|discriminate].
  intros ->. cbn [negb].
  destruct (_construct_attachment_download_url _ _ _); run.
  - destruct (truthy _); eexists; (split; [reflexivity|apply leaf_img]).
  - eexists. split; [reflexivity|apply leaf_text].
Qed.

Lemma link_none anc n (s : St W) :
  rewritable (lit "ac:link") (lit "ri:attachment") (lit "ri:filename") n = false ->
  ac_link_attachment_step page_id base_url anc n s = (None, s).
Proof.
  unfold rewritable, first_ok, ac_link_attachment_step.
  destruct (matches (lit "ac:link") [] n); [|reflexivity]. simpl.
  destruct (find n (lit "ri:attachment") []) as [a|]; [|reflexivity].
  intros ->. reflexivity.
Qed.

Lemma link_some anc n (s : St W) :
  rewritable (lit "ac:link") (lit "ri:attachment") (lit "ri:filename") n = true ->
  exists r,
    fst (ac_link_attachment_step page_id base_url anc n s) = Some r /\ leaf r.
Proof.
  unfold rewritable, first_ok, ac_link_attachment_step.
  destruct (matches (lit "ac:link") [] n); [|discriminate]. simpl.
  destruct (find n (lit "ri:attachment") []) as [a|]; [|discriminate].
  intros ->. cbn [negb].
  destruct (_construct_attachment_download_url _ _ _); run;
    eexists; (split; [reflexivity|]); [apply leaf_a | apply leaf_text].
Qed.

Lemma bare_none anc n (s : St W) :
  bare_reference anc n = false ->
  ri_attachment_step page_id base_url anc n s = (None, s).
Proof.
  unfold bare_reference, nested_in_image_or_link, ri_attachment_step.
  destruct (matches (lit "ri:attachment") [] n); [|reflexivity]. simpl.
  destruct (truthy_opt (get n (lit "ri:filename"))); [|reflexivity]. simpl.
  destruct (has_parent anc (lit "ac:image")); [reflexivity|].
  destruct (has_parent anc (lit "ac:link")); [reflexivity|]. discriminate.
Qed.

Lemma bare_some anc n (s : St W) :
  bare_reference anc n = true ->
  exists r, fst (ri_attachment_step page_id base_url anc n s) = Some r /\ leaf r.
Proof.
  unfold bare_reference, nested_in_image_or_link, ri_attachment_step.
  destruct (matches (lit "ri:attachment") [] n); [|discriminate]. simpl.
  destruct (truthy_opt (get n (lit "ri:filename"))); [|discriminate]. simpl.
  destruct (has_parent anc (lit "ac:image")); [discriminate|].
  destruct (has_parent anc (lit "ac:link")); [discriminate|]. intros _.
  destruct (_construct_attachment_download_url _ _ _); run;
    eexists; (split; [reflexivity|]); [apply leaf_a | apply leaf_text].
Qed.

(** A text node, an [img] and an [a] are none of the elements the
    passes look for. *)
Lemma leaf_nodes r d :
  leaf r -> In d (nodes r) ->
  (exists t, d = NavigableString t)
  \/ (exists attrs cs, d = Tag (lit "img") attrs cs)
  \/ (exists attrs cs, d = Tag (lit "a") attrs cs).
Proof.
  intros [[t ->]|[(src & alt & ->)|(href & text & ->)]] Hd; simpl in Hd.
  - destruct Hd as [<-|[]]. left. eexists. reflexivity.
  - destruct Hd as [<-|[]]. right; left. do 2 eexists. reflexivity.
  - destruct Hd as [<-|[<-|[]]].
    + right; right. do 2 eexists. reflexivity.
    + left. eexists. reflexivity.
Qed.

Lemma leaf_no_mention r d : leaf r -> In d (nodes r) -> is_mention d = false.
Proof.
  intros L Hd.
  destruct (leaf_nodes L Hd) as [[t ->]|[(a & c & ->)|(a & c & ->)]];
    reflexivity.
Qed.

Lemma leaf_no_profile r d : leaf r -> In d (nodes r) -> is_profile d = false.
Proof.
  intros L Hd.
  destruct (leaf_nodes L Hd) as [[t ->]|[(a & c & ->)|(a & c & ->)]];
    reflexivity.
Qed.

Lemma leaf_not_rewritable N X K r d :
  pystr_eqb (lit "img") N = false -> pystr_eqb (lit "a") N = false ->
  leaf r -> In d (nodes r) -> rewritable N X K d = false.
Proof.
  intros Hi Ha L Hd. unfold rewritable, matches.
  destruct (leaf_nodes L Hd) as [[t ->]|[(a & c & ->)|(a & c & ->)]];
    [reflexivity| rewrite Hi | rewrite Ha]; reflexivity.
Qed.

Lemma mention_stable (anc : list pystr) name attrs cs cs' :
  is_mention (Tag name attrs cs) = false ->
  Forall2 (out (user_mention_step client) (name :: anc)) cs cs' ->
  is_mention (Tag name attrs cs') = false.
Proof.
  rewrite !is_mention_rewritable.
  apply (@rewritable_stable W (user_mention_step client)); [reflexivity|].
  intros a n s H. apply user_mention_step_none.
  rewrite is_mention_rewritable. exact H.
Qed.

End EachPass.

(** X1: each of the five passes is idempotent.  Run again on the soup
    it has produced, from any state, a pass returns that soup unchanged,
    makes no call and logs nothing.  (This holds for nested macros too;
    it is the composition of the passes that can leave work behind.) *)
Theorem each_pass_is_idempotent (W : Type)
  (client : option (ConfluenceClient W)) (c : ConfluenceClient W)
  (page_id base_url : pystr) (soup : PageElement) (s s' : St W) :
  _process_user_mentions_in_soup
    (fst (_process_user_mentions_in_soup soup client s)) client s'
  = (fst (_process_user_mentions_in_soup soup client s), s')
  /\ _process_user_profile_macros_in_soup
       (fst (_process_user_profile_macros_in_soup soup client s)) client s'
     = (fst (_process_user_profile_macros_in_soup soup client s), s')
  /\ _process_ac_image_macros
       (fst (_process_ac_image_macros soup c page_id base_url s))
       c page_id base_url s'
     = (fst (_process_ac_image_macros soup c page_id base_url s), s')
  /\ _process_ri_attachment_macros
       (fst (_process_ri_attachment_macros soup c page_id base_url s))
       c page_id base_url s'
     = (fst (_process_ri_attachment_macros soup c page_id base_url s), s')
  /\ _process_ac_link_attachment_macros
       (fst (_process_ac_link_attachment_macros soup c page_id base_url s))
       c page_id base_url s'
     = (fst (_process_ac_link_attachment_macros soup c page_id base_url s), s').
Proof.
  unfold _process_user_mentions_in_soup, _process_user_profile_macros_in_soup,
    _process_ac_image_macros, _process_ri_attachment_macros,
    _process_ac_link_attachment_macros.
  repeat split.
  - apply (@run_pass_again W (user_mention_step client) is_mention).
    + intros anc n s0. apply user_mention_step_none.
    + intros anc n s0. apply mention_some.
    + apply leaf_no_mention.
    + apply mention_stable.
  - apply (@run_pass_again W (user_profile_step client) is_profile).
    + intros anc n s0. apply user_profile_step_none.
    + intros anc n s0. apply profile_some.
    + apply leaf_no_profile.
    + intros anc name attrs cs cs' H _. exact H.
  - apply (@run_pass_again W (ac_image_step page_id base_url)
             (rewritable (lit "ac:image") (lit "ri:attachment")
                (lit "ri:filename"))).
    + intros anc n s0. apply image_none.
    + intros anc n s0. apply image_some.
    + intros r d. apply leaf_not_rewritable; reflexivity.
    + intros anc name attrs cs cs'.
      apply (@rewritable_stable W (ac_image_step page_id base_url));
        [reflexivity|]. intros a n s0. apply image_none.
  - apply (@run_pass_twice W (ri_attachment_step page_id base_url)
             bare_reference).
    + intros anc n s0. apply bare_none.
    + intros anc n s0. apply bare_some.
    + intros anc r L.
      apply (@leaf_settled W client page_id base_url anc r L).
    + intros anc name attrs cs cs' H _. exact H.
  - apply (@run_pass_again W (ac_link_attachment_step page_id base_url)
             (rewritable (lit "ac:link") (lit "ri:attachment")
                (lit "ri:filename"))).
    + intros anc n s0. apply link_none.
    + intros anc n s0. apply link_some.
    + intros r d. apply leaf_not_rewritable; reflexivity.
    + intros anc name attrs cs cs'.
      apply (@rewritable_stable W (ac_link_attachment_step page_id base_url));
        [reflexivity|]. intros a n s0. apply link_none.
Qed.

(** X2: a pass leaves none of the elements it rewrites.  In the soup
    the user-mention pass returns, no link has a first user reference
    with an account id; in what the profile pass returns there is no
    profile macro; after the image pass no image macro, and after the link
    pass no link, has a first attachment reference with a filename. *)
Theorem passes_leave_no_target (W : Type)
  (client : option (ConfluenceClient W)) (c : ConfluenceClient W)
  (page_id base_url : pystr) (soup : PageElement) (s : St W) :
  (forall d,
      In d (descendants (fst (_process_user_mentions_in_soup soup client s))) ->
      is_mention d = false)
  /\ (forall d,
         In d (descendants
                 (fst (_process_user_profile_macros_in_soup soup client s))) ->
         is_profile d = false)
  /\ (forall d,
         In d (descendants
                 (fst (_process_ac_image_macros soup c page_id base_url s))) ->
         rewritable (lit "ac:image") (lit "ri:attachment") (lit "ri:filename") d
         = false)
  /\ (forall d,
         In d (descendants
                 (fst (_process_ac_link_attachment_macros soup c page_id
                         base_url s))) ->
         rewritable (lit "ac:link") (lit "ri:attachment") (lit "ri:filename") d
         = false).
Proof.
  unfold _process_user_mentions_in_soup, _process_user_profile_macros_in_soup,
    _process_ac_image_macros, _process_ac_link_attachment_macros.
  repeat split; intros d.
  - apply (@run_pass_clears W (user_mention_step client) is_mention).
    + intros anc n s0. apply user_mention_step_none.
    + intros anc n s0. apply mention_some.
    + apply leaf_no_mention.
    + apply mention_stable.
  - apply (@run_pass_clears W (user_profile_step client) is_profile).
    + intros anc n s0. apply user_profile_step_none.
    + intros anc n s0. apply profile_some.
    + apply leaf_no_profile.
    + intros anc name attrs cs cs' H _. exact H.
  - apply (@run_pass_clears W (ac_image_step page_id base_url)
             (rewritable (lit "ac:image") (lit "ri:attachment")
                (lit "ri:filename"))).
    + intros anc n s0. apply image_none.
    + intros anc n s0. apply image_some.
    + intros r d0. apply leaf_not_rewritable; reflexivity.
    + intros anc name attrs cs cs'.
      apply (@rewritable_stable W (ac_image_step page_id base_url));
        [reflexivity|]. intros a n s0. apply image_none.
  - apply (@run_pass_clears W (ac_link_attachment_step page_id base_url)
             (rewritable (lit "ac:link") (lit "ri:attachment")
                (lit "ri:filename"))).
    + intros anc n s0. apply link_none.
    + intros anc n s0. apply link_some.
    + intros r d0. apply leaf_not_rewritable; reflexivity.
    + intros anc name attrs cs cs'.
      apply (@rewritable_stable W (ac_link_attachment_step page_id base_url));
        [reflexivity|]. intros a n s0. apply link_none.
Qed.

(** ** The calls and the world *)

Section PassCalls.

Variable W : Type.
Variable h : list pystr -> PageElement -> M W (option PageElement).
(** The calls the loop body makes at an element. *)
Variable ev : PageElement -> list event.

Hypothesis h_calls :
  forall anc n s, calls (trace (snd (h anc n s))) = calls (trace s) ++ ev n.
(** A text node is not in the list of a pass. *)
Hypothesis ev_text : forall t, ev (NavigableString t) = [].

Lemma visit_all_calls cs :
  Forall (fun c => forall anc s,
              calls (trace (snd (visit h anc c s)))
              = calls (trace s) ++ flat_map ev (nodes c)) cs ->
  forall anc s,
    calls (trace (snd (visit_all h anc cs s)))
    = calls (trace s) ++ flat_map ev (flat_map nodes cs).
Proof.
  induction 1 as [|c cs Hc _ IH]; intros anc s.
  - simpl. rewrite app_nil_r. reflexivity.
  - rewrite visit_all_cons. specialize (Hc anc s).
    destruct (visit h anc c s) as [c' s1]. specialize (IH anc s1).
    destruct (visit_all h anc cs s1) as [l' s2]. cbn [snd flat_map] in *.
    rewrite IH, Hc, flat_map_app, app_assoc. reflexivity.
Qed.

Lemma visit_calls n :
  forall anc s,
    calls (trace (snd (visit h anc n s)))
    = calls (trace s) ++ flat_map ev (nodes n).
Proof.
  induction n as [t|name attrs cs IH] using PageElement_ind_all;
    intros anc s.
  - simpl. rewrite ev_text, app_nil_r. reflexivity.
  - rewrite visit_tag. pose proof (h_calls anc (Tag name attrs cs) s) as H.
    destruct (h anc (Tag name attrs cs) s) as [[r|] s1]; cbn [snd] in H.
    + pose proof (@visit_all_calls cs IH [name] s1) as Hc.
      destruct (visit_all h [name] cs s1) as [x s2]. cbn [snd] in *.
      rewrite Hc, H. unfold nodes at 2. cbn [flat_map descendants].
      rewrite <- app_assoc. reflexivity.
    + pose proof (@visit_all_calls cs IH (name :: anc) s1) as Hc.
      destruct (visit_all h (name :: anc) cs s1) as [x s2]. cbn [snd] in *.
      rewrite Hc, H. unfold nodes at 2. cbn [flat_map descendants].
      rewrite <- app_assoc. reflexivity.
Qed.

Lemma run_pass_calls soup s :
  calls (trace (snd (run_pass h soup s)))
  = calls (trace s) ++ flat_map ev (descendants soup).
Proof.
  destruct soup as [t|name attrs cs].
  - simpl. rewrite app_nil_r. reflexivity.
  - unfold run_pass, bind, ret.
    pose proof (@visit_all_calls cs) as Hc.
    specialize (Hc (proj2 (Forall_forall _ cs) (fun c _ => visit_calls c))
                  [name] s).
    destruct (visit_all h [name] cs s) as [x s2]. exact Hc.
Qed.

End PassCalls.

Section PassInvariant.

Variable W : Type.
Variable h : list pystr -> PageElement -> M W (option PageElement).
Variable R : St W -> St W -> Prop.

Hypothesis R_refl : forall s, R s s.
Hypothesis R_trans : forall s1 s2 s3, R s1 s2 -> R s2 s3 -> R s1 s3.
Hypothesis h_R : forall anc n s, R s (snd (h anc n s)).

Lemma visit_all_R cs :
  Forall (fun c => forall anc s, R s (snd (visit h anc c s))) cs ->
  forall anc s, R s (snd (visit_all h anc cs s)).
Proof.
  induction 1 as [|c cs Hc _ IH]; intros anc s.
  - apply R_refl.
  - rewrite visit_all_cons. specialize (Hc anc s).
    destruct (visit h anc c s) as [c' s1]. specialize (IH anc s1).
    destruct (visit_all h anc cs s1) as [l' s2]. cbn [snd] in *.
    eapply R_trans; eassumption.
Qed.

Lemma visit_R n : forall anc s, R s (snd (visit h anc n s)).
Proof.
  induction n as [t|name attrs cs IH] using PageElement_ind_all;
    intros anc s.
  - apply R_refl.
  - rewrite visit_tag. pose proof (h_R anc (Tag name attrs cs) s) as H.
    destruct (h anc (Tag name attrs cs) s) as [[r|] s1]; cbn [snd] in H.
    + pose proof (@visit_all_R cs IH [name] s1) as Hc.
      destruct (visit_all h [name] cs s1) as [x s2]. cbn [snd] in *.
      eapply R_trans; eassumption.
    + pose proof (@visit_all_R cs IH (name :: anc) s1) as Hc.
      destruct (visit_all h (name :: anc) cs s1) as [x s2]. cbn [snd] in *.
      eapply R_trans; eassumption.
Qed.

Lemma run_pass_R soup s : R s (snd (run_pass h soup s)).
Proof.
  destruct soup as [t|name attrs cs]; [apply R_refl|].
  unfold run_pass, bind, ret.
  pose proof (@visit_all_R cs) as Hc.
  specialize (Hc (proj2 (Forall_forall _ cs) (fun c _ => visit_R c)) [name] s).
  destruct (visit_all h [name] cs s) as [x s2]. exact Hc.
Qed.

End PassInvariant.

Section Calls.

Variable W : Type.

(** No call, and the world as it was. *)
Let offline (s s' : St W) : Prop :=
  world s' = world s /\ calls (trace s') = calls (trace s).

(** The world as it was, and nothing but warnings logged. *)
Let warned (s s' : St W) : Prop :=
  world s' = world s
  /\ exists t, trace s' = trace s ++ t
               /\ Forall (fun e => exists msg, e = Logged WARNING msg) t.

Lemma offline_refl s : offline s s.
Proof. split; reflexivity. Qed.

Lemma offline_trans s1 s2 s3 : offline s1 s2 -> offline s2 s3 -> offline s1 s3.
Proof. intros [A B] [C D]. split; congruence. Qed.

Lemma warned_refl s : warned s s.
Proof.
  split; [reflexivity|]. exists []. rewrite app_nil_r. split; constructor.
Qed.

Lemma warned_trans s1 s2 s3 : warned s1 s2 -> warned s2 s3 -> warned s1 s3.
Proof.
  intros [A (t & B & C)] [D (u & E & F)]. split; [congruence|].
  exists (t ++ u). rewrite E, B, app_assoc. split; [reflexivity|].
  apply Forall_app. split; assumption.
Qed.

Lemma warned_offline s s' : warned s s' -> offline s s'.
Proof.
  intros [A (t & B & C)]. split; [exact A|]. rewrite B, calls_app.
  assert (Ht : calls t = []).
  { clear B. induction C as [|e t [msg ->] _ IH]; [reflexivity|exact IH]. }
  rewrite Ht, app_nil_r. reflexivity.
Qed.

Lemma warned_one (s : St W) msg :
  warned s (mkSt (world s) (trace s ++ [Logged WARNING msg])).
Proof.
  split; [reflexivity|]. eexists. split; [reflexivity|].
  constructor; [eexists; reflexivity|constructor].
Qed.

Lemma image_step_warned page_id base_url anc n (s : St W) :
  warned s (snd (ac_image_step page_id base_url anc n s)).
Proof.
  unfold ac_image_step.
  destruct (matches (lit "ac:image") [] n); [|apply warned_refl].
  destruct (find n (lit "ri:attachment") []) as [a|]; [|apply warned_refl].
  destruct (negb _); [apply warned_refl|].
  destruct (_construct_attachment_download_url _ _ _); run;
    [apply warned_refl|apply warned_one].
Qed.

Lemma bare_step_warned page_id base_url anc n (s : St W) :
  warned s (snd (ri_attachment_step page_id base_url anc n s)).
Proof.
  unfold ri_attachment_step.
  destruct (matches (lit "ri:attachment") [] n); [|apply warned_refl].
  destruct (negb _); [apply warned_refl|].
  destruct (has_parent anc (lit "ac:image")); [apply warned_refl|].
  destruct (has_parent anc (lit "ac:link")); [apply warned_refl|].
  destruct (_construct_attachment_download_url _ _ _); run;
    [apply warned_refl|apply warned_one].
Qed.

Lemma link_step_warned page_id base_url anc n (s : St W) :
  warned s (snd (ac_link_attachment_step page_id base_url anc n s)).
Proof.
  unfold ac_link_attachment_step.
  destruct (matches (lit "ac:link") [] n); [|apply warned_refl].
  destruct (find n (lit "ri:attachment") []) as [a|]; [|apply warned_refl].
  destruct (negb _); [apply warned_refl|].
  destruct (_construct_attachment_download_url _ _ _); run;
    [apply warned_refl|apply warned_one].
Qed.

Lemma inline_attachments_warned soup (c : ConfluenceClient W)
  page_id base_url s :
  warned s
    (snd (_process_inline_attachments_in_soup soup c page_id base_url s)).
Proof.
  unfold _process_inline_attachments_in_soup, _process_ac_image_macros,
    _process_ri_attachment_macros, _process_ac_link_attachment_macros, bind.
  pose proof (@run_pass_R W (ac_image_step page_id base_url) warned
                warned_refl warned_trans
                (image_step_warned page_id base_url) soup s) as H3.
  destruct (run_pass (ac_image_step page_id base_url) soup s) as [x3 s3].
  pose proof (@run_pass_R W (ri_attachment_step page_id base_url) warned
                warned_refl warned_trans
                (bare_step_warned page_id base_url) x3 s3) as H4.
  destruct (run_pass (ri_attachment_step page_id base_url) x3 s3) as [x4 s4].
  pose proof (@run_pass_R W (ac_link_attachment_step page_id base_url) warned
                warned_refl warned_trans
                (link_step_warned page_id base_url) x4 s4) as H5.
  destruct (run_pass (ac_link_attachment_step page_id base_url) x4 s4)
    as [x5 s5].
  cbn [snd] in *. eapply warned_trans; [|exact H5].
  eapply warned_trans; eassumption.
Qed.

Lemma mention_step_offline anc n (s : St W) :
  offline s (snd (user_mention_step None anc n s)).
Proof.
  unfold user_mention_step.
  destruct (matches (lit "ac:link") [] n); [|apply offline_refl].
  destruct (account_id_of _) as [a|]; [apply offline_refl|].
  destruct (find n (lit "ac:link-body") []) as [lb|]; [|apply offline_refl].
  destruct (mem 64 (get_text_strip lb)); apply offline_refl.
Qed.

Lemma profile_step_offline anc n (s : St W) :
  offline s (snd (user_profile_step None anc n s)).
Proof.
  unfold user_profile_step.
  destruct (matches _ _ n); [|apply offline_refl]. unfold bind, ret.
  destruct (user_reference n) as [u|] eqn:E.
  - destruct (@replace_profile_macro_wellformed W None n s u E)
      as (r & s' & H & Ho).
    rewrite H. destruct Ho as (_ & Hw & Hc). split; assumption.
  - destruct (@replace_profile_macro_malformed W None n s E)
      as (s' & H & Hw & Hc).
    rewrite H. split; assumption.
Qed.

Lemma mention_step_calls (c : ConfluenceClient W) anc n (s : St W) :
  calls (trace (snd (user_mention_step (Some c) anc n s)))
  = calls (trace s) ++ mention_calls [n].
Proof.
  unfold mention_calls, user_mention_step. cbn [flat_map].
  rewrite app_nil_r.
  destruct (matches (lit "ac:link") [] n);
    [|simpl; rewrite app_nil_r; reflexivity].
  destruct (account_id_of _) as [a|].
  - unfold bind, ret.
    destruct (@replace_user_mention_some W n a c s) as (r & s' & E & Hc & _).
    rewrite E. exact Hc.
  - destruct (find n (lit "ac:link-body") []) as [lb|];
      [destruct (mem 64 (get_text_strip lb))|];
      simpl; rewrite app_nil_r; reflexivity.
Qed.

Lemma profile_step_calls (c : ConfluenceClient W) anc n (s : St W) :
  calls (trace (snd (user_profile_step (Some c) anc n s)))
  = calls (trace s) ++ profile_calls [n].
Proof.
  unfold profile_calls, user_profile_step, is_profile. cbn [flat_map].
  rewrite app_nil_r.
  destruct (matches _ _ n); [|simpl; rewrite app_nil_r; reflexivity].
  unfold bind, ret. destruct (user_reference n) as [u|] eqn:E.
  - destruct (@replace_profile_macro_wellformed W (Some c) n s u E)
      as (r & s' & H & Ho).
    rewrite H. unfold profile_outcome in Ho. cbv zeta in *. cbn [snd].
    destruct (truthy_opt (get u (lit "ri:account-id")));
      [|destruct (truthy_opt (get u (lit "ri:userkey")))].
    + apply Ho.
    + apply Ho.
    + destruct Ho as (_ & _ & Hc). rewrite Hc, app_nil_r. reflexivity.
  - destruct (@replace_profile_macro_malformed W (Some c) n s E)
      as (s' & H & Hw & Hc).
    rewrite H. cbn [snd]. rewrite Hc, app_nil_r. reflexivity.
Qed.

Lemma mention_pass_calls (c : ConfluenceClient W) soup (s : St W) :
  calls (trace (snd (_process_user_mentions_in_soup soup (Some c) s)))
  = calls (trace s) ++ mention_calls (descendants soup).
Proof.
  unfold _process_user_mentions_in_soup.
  rewrite (@run_pass_calls W (user_mention_step (Some c))
             (fun d => mention_calls [d])).
  - f_equal. unfold mention_calls. apply flat_map_ext. intros d.
    cbn [flat_map]. apply app_nil_r.
  - intros anc n s0. apply mention_step_calls.
  - reflexivity.
Qed.

Lemma profile_pass_calls (c : ConfluenceClient W) soup (s : St W) :
  calls (trace (snd (_process_user_profile_macros_in_soup soup (Some c) s)))
  = calls (trace s) ++ profile_calls (descendants soup).
Proof.
  unfold _process_user_profile_macros_in_soup.
  rewrite (@run_pass_calls W (user_profile_step (Some c))
             (fun d => profile_calls [d])).
  - f_equal. unfold profile_calls. apply flat_map_ext. intros d.
    cbn [flat_map]. apply app_nil_r.
  - intros anc n s0. apply profile_step_calls.
  - reflexivity.
Qed.

Lemma process_soup_offline (self : BasePreprocessor) soup page_id flag
  (s : St W) :
  offline s (snd (process_soup self soup None page_id flag s)).
Proof.
  unfold process_soup, _process_user_mentions_in_soup,
    _process_user_profile_macros_in_soup, bind.
  pose proof (@run_pass_R W (user_mention_step None) offline
                offline_refl offline_trans mention_step_offline soup s) as H1.
  destruct (run_pass (user_mention_step None) soup s) as [x1 s1].
  pose proof (@run_pass_R W (user_profile_step None) offline
                offline_refl offline_trans profile_step_offline x1 s1) as H2.
  destruct (run_pass (user_profile_step None) x1 s1) as [x2 s2].
  cbn [snd] in *. destruct flag; cbn; eapply offline_trans; eassumption.
Qed.

End Calls.

(** X3: the calls of a run.  With a client, the rewriting of a soup
    calls the resolver once by account id for every link of the input
    whose first user reference has an account id (links inside a replaced
    link included), in document order; then, for every profile macro of
    the soup the mention pass has produced, once by account id when its
    user reference has one, else once by username when it has a userkey.
    It makes no other call, whatever the flag and the content id. *)
Theorem calls_of_process_soup (W : Type) (self : BasePreprocessor)
  (soup : PageElement) (c : ConfluenceClient W) (page_id : option pystr)
  (flag : bool) (s : St W) :
  calls (trace (snd (process_soup self soup (Some c) page_id flag s)))
  = calls (trace s)
    ++ mention_calls (descendants soup)
    ++ profile_calls
         (descendants (fst (_process_user_mentions_in_soup soup (Some c) s))).
Proof.
  unfold process_soup, bind.
  pose proof (mention_pass_calls c soup s) as H1.
  destruct (_process_user_mentions_in_soup soup (Some c) s) as [x1 s1].
  pose proof (profile_pass_calls c x1 s1) as H2.
  destruct (_process_user_profile_macros_in_soup x1 (Some c) s1) as [x2 s2].
  cbn [fst snd] in *.
  assert (E : calls (trace s2)
              = calls (trace s) ++ mention_calls (descendants soup)
                ++ profile_calls (descendants x1))
    by (rewrite H2, H1, app_assoc; reflexivity).
  destruct flag; [|exact E].
  destruct (truthy_opt page_id); [|exact E].
  pose proof (@inline_attachments_warned W x2 c (unwrap page_id)
                (base_url self) s2) as H3.
  apply warned_offline in H3. destruct H3 as [_ H3]. rewrite H3. exact E.
Qed.

(** X4: without a client nothing is called.  A run of
    [process_html_content] that is given no client leaves the world
    behind the client as it was and calls no resolver, for every
    document, content id and flag, whether it returns or raises. *)
Theorem no_client_no_call (W : Type)
  (BeautifulSoup : pystr -> result PageElement)
  (str_of_soup : PageElement -> result pystr) (md : pystr -> result pystr)
  (self : BasePreprocessor) (html_content space_key : pystr)
  (page_id : option pystr) (flag : bool) (s : St W) :
  world (snd (process_html_content BeautifulSoup str_of_soup md self
                html_content space_key None page_id flag s))
  = world s
  /\ calls (trace (snd (process_html_content BeautifulSoup str_of_soup md self
                          html_content space_key None page_id flag s)))
     = calls (trace s).
Proof.
  unfold process_html_content, log_and_raise, bind, ret, log, emit.
  destruct (BeautifulSoup html_content) as [soup|e]; cbn [snd world trace].
  2:{ rewrite calls_app, app_nil_r. split; reflexivity. }
  destruct (@process_soup_offline W self soup page_id flag s) as [Hw Hc].
  destruct (process_soup self soup None page_id flag s) as [x s1].
  cbn [snd] in *.
  destruct (str_of_soup x) as [h|e]; cbn [snd world trace].
  2:{ rewrite calls_app, app_nil_r. split; assumption. }
  destruct (md h) as [m|e]; cbn [snd world trace].
  - split; assumption.
  - rewrite calls_app, app_nil_r. split; assumption.
Qed.

(** X5: the inline attachment rewriter works offline.  Its three
    passes never use the client they are handed: the world is as it was,
    and all they add to the trace are WARNING records (those of the
    download URLs that could not be built). *)
Theorem attachment_rewriter_only_warns (W : Type) (soup : PageElement)
  (c : ConfluenceClient W) (page_id base_url : pystr) (s : St W) :
  world (snd (_process_inline_attachments_in_soup soup c page_id base_url s))
  = world s
  /\ exists t,
       trace (snd (_process_inline_attachments_in_soup soup c page_id
                     base_url s))
       = trace s ++ t
       /\ Forall (fun e => exists msg, e = Logged WARNING msg) t.
Proof. apply inline_attachments_warned. Qed.

(** ** Documents without macros *)

Lemma plain_html_node soup d :
  plain_html soup = true -> In d (descendants soup) ->
  is_macro d = false /\ matches (lit "ri:attachment") [] d = false.
Proof.
  unfold plain_html. rewrite forallb_forall. intros H Hd.
  specialize (H d Hd). apply andb_true_iff in H.
  rewrite !negb_true_iff in H. exact H.
Qed.

Lemma bare_not_reference W page_id base_url anc d (s : St W) :
  matches (lit "ri:attachment") [] d = false ->
  ri_attachment_step page_id base_url anc d s = (None, s).
Proof. unfold ri_attachment_step. intros ->. reflexivity. Qed.

Lemma process_soup_plain W (self : BasePreprocessor) (soup : PageElement)
  (client : option (ConfluenceClient W)) (page_id : option pystr)
  (flag : bool) (s : St W) :
  plain_html soup = true ->
  process_soup self soup client page_id flag s = (soup, s).
Proof.
  intros Hp.
  unfold process_soup, _process_inline_attachments_in_soup,
    _process_user_mentions_in_soup, _process_user_profile_macros_in_soup,
    _process_ac_image_macros, _process_ri_attachment_macros,
    _process_ac_link_attachment_macros, bind, ret.
  rewrite run_pass_fixed
    by (intros d Hd anc s1; apply h1_not_macro;
        apply (plain_html_node soup d Hp Hd)).
  rewrite run_pass_fixed
    by (intros d Hd anc s1; apply h2_not_macro;
        apply (plain_html_node soup d Hp Hd)).
  destruct flag; [|reflexivity].
  destruct client as [c|]; [|reflexivity].
  destruct (truthy_opt page_id); [|reflexivity].
  rewrite run_pass_fixed
    by (intros d Hd anc s1; apply h3_not_macro;
        apply (plain_html_node soup d Hp Hd)).
  rewrite run_pass_fixed
    by (intros d Hd anc s1; apply bare_not_reference;
        apply (plain_html_node soup d Hp Hd)).
  rewrite run_pass_fixed
    by (intros d Hd anc s1; apply h5_not_macro;
        apply (plain_html_node soup d Hp Hd)).
  reflexivity.
Qed.

(** X6: a document without macros goes through untouched.  When the
    parsed document holds no link, image macro, profile macro or
    attachment reference, [process_html_content] returns the
    serialization of the soup as parsed and its Markdown, and the run has
    no effect at all: no call, no log record; this for any client,
    content id and flag. *)
Theorem plain_document_passes_through (W : Type)
  (BeautifulSoup : pystr -> result PageElement)
  (str_of_soup : PageElement -> result pystr) (md : pystr -> result pystr)
  (self : BasePreprocessor) (html_content space_key : pystr)
  (client : option (ConfluenceClient W)) (page_id : option pystr)
  (flag : bool) (s : St W) (soup : PageElement) (h m : pystr) :
  BeautifulSoup html_content = Ok soup ->
  plain_html soup = true ->
  str_of_soup soup = Ok h ->
  md h = Ok m ->
  process_html_content BeautifulSoup str_of_soup md self html_content
    space_key client page_id flag s
  = (Ok (h, m), s).
Proof.
  intros Hb Hp Hs Hm. unfold process_html_content, bind, ret.
  rewrite Hb, (process_soup_plain self soup client page_id flag s Hp), Hs, Hm.
  reflexivity.
Qed.

Lemma plain_document_passes_through_witness :
  parser_of [sample_plain] (markup_of sample_plain) = Ok sample_plain
  /\ plain_html sample_plain = true
  /\ render_soup sample_plain = Ok (markup_of sample_plain)
  /\ sample_md (markup_of sample_plain) = Ok (markup_of sample_plain)
  /\ process_html_content (parser_of [sample_plain]) render_soup sample_md
       sample_base (markup_of sample_plain) (lit "")
       (Some sample_client) (Some (lit "12345")) true s0
     = (Ok (markup_of sample_plain, markup_of sample_plain), s0).
Proof.
  assert (H1 : parser_of [sample_plain] (markup_of sample_plain)
               = Ok sample_plain) by (vm_compute; reflexivity).
  assert (H2 : plain_html sample_plain = true) by (vm_compute; reflexivity).
  assert (H3 : render_soup sample_plain = Ok (markup_of sample_plain))
    by (vm_compute; reflexivity).
  assert (H4 : sample_md (markup_of sample_plain)
               = Ok (markup_of sample_plain)) by reflexivity.
  repeat (split; [assumption|]).
  exact (@plain_document_passes_through unit (parser_of [sample_plain])
           render_soup sample_md sample_base (markup_of sample_plain)
           (lit "") (Some sample_client) (Some (lit "12345")) true s0
           sample_plain (markup_of sample_plain) (markup_of sample_plain)
           H1 H2 H3 H4).
Defined.

(** ** [markdown_to_confluence_storage] *)

Section StorageFormat.

Variable E : Type.
Variable markdown_to_html : pystr -> result pystr.
Variable mkdtemp : result pystr.
Variable elements_from_string : pystr -> result E.
Variable converter_visit : bool -> pystr -> E -> result E.
Variable elements_to_string : E -> result pystr.

(** The method with its collaborators. *)
Local Notation "'run'" :=
  (markdown_to_confluence_storage markdown_to_html mkdtemp
     elements_from_string converter_visit elements_to_string).

Lemma storage_fallback_result markdown_content e t :
  fst (storage_fallback markdown_to_html markdown_content e t)
  = match markdown_to_html markdown_content with
    | Ok html_content => Ok (lit "<p>" ++ html_content ++ lit "</p>")
    | Raise e' => Raise e'
    end.
Proof.
  unfold storage_fallback.
  destruct (markdown_to_html markdown_content); reflexivity.
Qed.


(** X7: the fallback absorbs every failure but one.
    [markdown_to_confluence_storage] raises exactly when
    [markdown_to_html] raises on the input, and then with that exception:
    the fallback calls it again.  A failure of [mkdtemp], of the parser,
    of the converter or of the serializer never reaches the caller. *)
Theorem storage_conversion_raises_with_markdown_to_html
  (markdown_content : pystr) (enable_heading_anchors : bool) (e : exn) :
  fst (run markdown_content enable_heading_anchors) = Raise e
  <-> markdown_to_html markdown_content = Raise e.
Proof.
  unfold markdown_to_confluence_storage.
  destruct (markdown_to_html markdown_content) as [html|e0] eqn:Eh.
  - destruct mkdtemp as [d|e1].
    + cbv zeta.
      destruct (match elements_from_string html with
                | Ok root =>
                    match converter_visit enable_heading_anchors d root with
                    | Ok root' => elements_to_string root'
                    | Raise e2 => Raise e2
                    end
                | Raise e2 => Raise e2
                end) as [st|e2].
      * simpl. split; discriminate.
      * rewrite storage_fallback_result, Eh. split; discriminate.
    + rewrite storage_fallback_result, Eh. split; discriminate.
  - rewrite storage_fallback_result, Eh. reflexivity.
Qed.


End StorageFormat.

(** ** [_convert_html_to_markdown] *)

Lemma mem_split (x : N) (l : list N) :
  mem x l = true -> exists p q, l = p ++ x :: q /\ ~ In x p.
Proof.
  induction l as [|y l IH]; [discriminate|].
  unfold mem in *. simpl. destruct (x =? y) eqn:Exy; simpl.
  - intros _. apply N.eqb_eq in Exy. subst y.
    exists [], l. split; [reflexivity|]. intros [].
  - intros H. destruct (IH H) as (p & q & -> & Hp).
    exists (y :: p), q. split; [reflexivity|].
    intros [->|Hi]; [|exact (Hp Hi)].
    rewrite N.eqb_refl in Exy. discriminate.
Qed.

Lemma mem_app_mid (x : N) (p q : list N) : mem x (p ++ x :: q) = true.
Proof.
  unfold mem. rewrite existsb_app. simpl. rewrite N.eqb_refl.
  apply orb_true_r.
Qed.

(** The search of [re.search(r"<[^>]+>", text)] succeeds exactly on the
    texts that hold a ['<'], one or more characters other than ['>'], and
    a ['>'], next to each other. *)
Lemma re_search_tag_iff (text : pystr) :
  re_search_tag text = true
  <-> exists a b c,
        text = a ++ lit "<" ++ b ++ lit ">" ++ c /\ b <> [] /\ ~ In 62 b.
Proof.
  change (lit "<") with [60]. change (lit ">") with [62]. split.
  - induction text as [|x rest IH]; [discriminate|].
    cbn [re_search_tag]. intros H. apply orb_true_iff in H.
    destruct H as [H|H].
    + apply andb_true_iff in H. destruct H as [Hx H].
      apply N.eqb_eq in Hx. subst x.
      destruct rest as [|d rest']; [discriminate|].
      apply andb_true_iff in H. destruct H as [Hd Hm].
      apply negb_true_iff, N.eqb_neq in Hd.
      destruct (mem_split 62 rest' Hm) as (p & q & -> & Hp).
      exists [], (d :: p), q. split; [reflexivity|]. split; [discriminate|].
      intros [E|Hi]; [congruence|exact (Hp Hi)].
    + destruct (IH H) as (a & b & c & -> & Hb & Hn).
      exists (x :: a), b, c. split; [reflexivity|]. split; assumption.
  - intros (a & b & c & -> & Hb & Hn).
    induction a as [|x a IH].
    + destruct b as [|d b']; [congruence|]. cbn [app re_search_tag].
      rewrite N.eqb_refl. cbn [andb].
      assert (Hd : (d =? 62) = false).
      { apply N.eqb_neq. intros ->. apply Hn. left. reflexivity. }
      rewrite Hd. cbn [negb andb]. rewrite mem_app_mid. reflexivity.
    + cbn [app re_search_tag]. cbn [app] in IH. rewrite IH.
      apply orb_true_r.
Qed.

(** X9: text without a tag is returned as it is.  When the text holds
    no ['<'] that is followed by one or more characters other than ['>']
    and then a ['>'], [_convert_html_to_markdown] returns it unchanged,
    hands nothing to the parser or to markdownify, and logs nothing. *)
Theorem text_without_tag_is_returned (W : Type)
  (BeautifulSoup : pystr -> result PageElement)
  (decode_contents : PageElement -> result pystr)
  (md : pystr -> result pystr) (text : pystr) (s : St W) :
  (forall a b c, text = a ++ lit "<" ++ b ++ lit ">" ++ c ->
                 b = [] \/ In 62 b) ->
  _convert_html_to_markdown BeautifulSoup decode_contents md text s
  = (text, s).
Proof.
  intros H. unfold _convert_html_to_markdown.
  destruct (re_search_tag text) eqn:E; [|reflexivity].
  exfalso. apply re_search_tag_iff in E.
  destruct E as (a & b & c & Ht & Hb & Hn).
  destruct (H a b c Ht) as [Hb'|Hi]; [exact (Hb Hb')|exact (Hn Hi)].
Qed.

Lemma text_without_tag_is_returned_witness :
  (forall a b c, lit "1 < 2" = a ++ lit "<" ++ b ++ lit ">" ++ c ->
                 b = [] \/ In 62 b)
  /\ _convert_html_to_markdown (parser_of []) (fun _ => Ok (lit "")) sample_md
       (lit "1 < 2") s0
     = (lit "1 < 2", s0).
Proof.
  assert (H : forall a b c,
             lit "1 < 2" = a ++ lit "<" ++ b ++ lit ">" ++ c ->
             b = [] \/ In 62 b).
  { intros a b c E. destruct b as [|d b]; [left; reflexivity|].
    destruct (in_dec N.eq_dec 62 (d :: b)) as [Hi|Hn]; [right; exact Hi|].
    exfalso.
    assert (T : re_search_tag (lit "1 < 2") = true).
    { apply re_search_tag_iff. exists a, (d :: b), c.
      split; [exact E|]. split; [discriminate|exact Hn]. }
    discriminate T. }
  split; [exact H|].
  exact (@text_without_tag_is_returned unit (parser_of [])
           (fun _ => Ok (lit "")) sample_md (lit "1 < 2") s0 H).
Defined.

(** ** The constructor *)

Lemma dropwhile_idempotent (p : N -> bool) (s : list N) :
  dropwhile p (dropwhile p s) = dropwhile p s.
Proof.
  induction s as [|c s IH]; [reflexivity|]. simpl.
  destruct (p c) eqn:Hc; [exact IH|]. simpl. rewrite Hc. reflexivity.
Qed.

Lemma rstrip_idempotent (p : N -> bool) (s : list N) :
  rstrip p (rstrip p s) = rstrip p s.
Proof.
  unfold rstrip. rewrite rev_involutive, dropwhile_idempotent. reflexivity.
Qed.

(** X10: the constructor normalizes.  A preprocessor built from the
    base URL another preprocessor has stored keeps that very URL:
    constructing is idempotent on the base URL. *)
Theorem constructor_is_idempotent (url : pystr) :
  BasePreprocessor_init (base_url (BasePreprocessor_init url))
  = BasePreprocessor_init url.
Proof.
  unfold BasePreprocessor_init. cbn [base_url]. f_equal.
  destruct (truthy url); [|reflexivity].
  rewrite rstrip_idempotent.
  destruct (rstrip (fun c => mem c (lit "/")) url); reflexivity.
Qed.

(** ** UTF-8, [quote] and the download URL *)

Lemma lor_add_below (m : N) (k : nat) :
  forallb (fun x => N.lor m x =? m + x) (map N.of_nat (seq 0 k)) = true ->
  forall x, x < N.of_nat k -> N.lor m x = m + x.
Proof.
  intros H x Hx. rewrite forallb_forall in H. apply N.eqb_eq, H.
  apply in_map_iff. exists (N.to_nat x). split; [apply N2Nat.id|].
  apply in_seq. lia.
Qed.

Lemma land_63 (c : N) : N.land c 0x3F = c mod 64.
Proof. change 0x3F with (N.ones 6). rewrite N.land_ones. reflexivity. Qed.

Lemma shiftr_div (c n : N) : N.shiftr c n = c / 2 ^ n.
Proof. apply N.shiftr_div_pow2. Qed.

Lemma cont_byte (x : N) : N.lor 0x80 (x mod 64) = 128 + x mod 64.
Proof.
  apply (@lor_add_below 0x80 64); [vm_compute; reflexivity|].
  apply N.mod_lt. discriminate.
Qed.


Ltac forget_divmod :=
  repeat match goal with
    | |- context [N.modulo ?a ?b] =>
        let r := fresh "r" in set (r := N.modulo a b) in *; clearbody r
    | H : context [N.modulo ?a ?b] |- _ =>
        let r := fresh "r" in set (r := N.modulo a b) in *; clearbody r
    | |- context [N.div ?a ?b] =>
        let q := fresh "q" in set (q := N.div a b) in *; clearbody q
    | H : context [N.div ?a ?b] |- _ =>
        let q := fresh "q" in set (q := N.div a b) in *; clearbody q
    end.

(** Facts about the digits of [c] in base 64, then plain arithmetic. *)
Ltac base64 c :=
  pose proof (N.div_mod c 64 ltac:(discriminate));
  pose proof (N.div_mod (c / 64) 64 ltac:(discriminate));
  pose proof (N.div_mod (c / 64 / 64) 64 ltac:(discriminate));
  pose proof (N.mod_lt c 64 ltac:(discriminate));
  pose proof (N.mod_lt (c / 64) 64 ltac:(discriminate));
  pose proof (N.mod_lt (c / 64 / 64) 64 ltac:(discriminate)).

Lemma encode_char_arith (c : N) :
  encode_char c
  = if c <? 0x80 then Ok [c]
    else if c <? 0x800 then Ok [192 + c / 64; 128 + c mod 64]
    else if c <? 0x10000 then
      if (0xD800 <=? c) && (c <=? 0xDFFF) then Raise (UnicodeEncodeError c)
      else Ok [224 + c / 64 / 64; 128 + (c / 64) mod 64; 128 + c mod 64]
    else if c <? 0x110000 then
      Ok [240 + c / 64 / 64 / 64; 128 + (c / 64 / 64) mod 64;
          128 + (c / 64) mod 64; 128 + c mod 64]
    else Raise (UnicodeEncodeError c).
Proof.
  unfold encode_char. rewrite !land_63, !shiftr_div, !cont_byte.
  change (2 ^ 6) with 64. change (2 ^ 12) with (64 * 64).
  change (2 ^ 18) with (64 * 64 * 64). rewrite <- !N.Div0.div_div.
  destruct (c <? 0x80) eqn:H1; [reflexivity|].
  destruct (c <? 0x800) eqn:H2.
  { apply N.ltb_lt in H2.
    rewrite (@lor_add_below 0xC0 32);
      [reflexivity | vm_compute; reflexivity |].
    base64 c. forget_divmod. lia. }
  destruct (c <? 0x10000) eqn:H3.
  { apply N.ltb_lt in H3.
    rewrite (@lor_add_below 0xE0 16);
      [reflexivity | vm_compute; reflexivity |].
    base64 c. forget_divmod. lia. }
  destruct (c <? 0x110000) eqn:H4; [|reflexivity].
  apply N.ltb_lt in H4.
  rewrite (@lor_add_below 0xF0 8);
    [reflexivity | vm_compute; reflexivity |].
  base64 c. forget_divmod. lia.
Qed.

#[local] Opaque N.add N.div N.modulo N.mul.

Lemma encode_char_inj (c c' : N) (bs : pybytes) :
  encode_char c = Ok bs -> encode_char c' = Ok bs -> c = c'.
Proof.
  rewrite !encode_char_arith. base64 c. base64 c'.
  intros E E'. rewrite <- E in E'. clear E. revert E'.
  destruct (c <? 0x80) eqn:K1;
    [|destruct (c <? 0x800) eqn:K2;
      [|destruct (c <? 0x10000) eqn:K3;
        [destruct ((0xD800 <=? c) && (c <=? 0xDFFF))
        |destruct (c <? 0x110000) eqn:K4]]];
  (destruct (c' <? 0x80) eqn:L1;
    [|destruct (c' <? 0x800) eqn:L2;
      [|destruct (c' <? 0x10000) eqn:L3;
        [destruct ((0xD800 <=? c') && (c' <=? 0xDFFF))
        |destruct (c' <? 0x110000) eqn:L4]]]);
  intros E; try discriminate E; injection E; intros;
  rewrite ?N.ltb_lt, ?N.ltb_ge in *; forget_divmod; lia.
Qed.


Ltac classify c K1 K2 K3 K4 :=
  destruct (c <? 0x80) eqn:K1;
    [|destruct (c <? 0x800) eqn:K2;
      [|destruct (c <? 0x10000) eqn:K3;
        [destruct ((0xD800 <=? c) && (c <=? 0xDFFF))
        |destruct (c <? 0x110000) eqn:K4]]].

(** UTF-8 is a prefix code: the first byte tells how many follow. *)
Lemma encode_char_prefix (c c' : N) (bs bs' r r' : pybytes) :
  encode_char c = Ok bs -> encode_char c' = Ok bs' ->
  bs ++ r = bs' ++ r' -> bs = bs' /\ r = r'.
Proof.
  rewrite !encode_char_arith. base64 c. base64 c'.
  classify c K1 K2 K3 K4; intros E; try discriminate E;
    injection E as <-;
    (classify c' L1 L2 L3 L4; intros E'; try discriminate E';
       injection E' as <-);
    cbn [app]; intros E; injection E; intros;
    rewrite ?N.ltb_lt, ?N.ltb_ge in *;
    first [ exfalso; forget_divmod; lia
          | split; congruence ].
Qed.

Lemma encode_char_bytes (c : N) (bs : pybytes) :
  encode_char c = Ok bs -> Forall (fun b => b < 256) bs /\ bs <> [].
Proof.
  rewrite encode_char_arith. base64 c.
  classify c K1 K2 K3 K4; intros E; try discriminate E;
    injection E as <-; rewrite ?N.ltb_lt, ?N.ltb_ge in *;
    (split; [repeat constructor; forget_divmod; lia | discriminate]).
Qed.

#[local] Transparent N.add N.div N.modulo N.mul.

Lemma encode_bytes (f : pystr) (bs : pybytes) :
  encode f = Ok bs -> Forall (fun b => b < 256) bs.
Proof.
  revert bs. induction f as [|c f IH]; simpl; intros bs H.
  - injection H as <-. constructor.
  - destruct (encode_char c) as [bc|] eqn:Ec; [|discriminate].
    destruct (encode f) as [bs'|]; [|discriminate].
    injection H as <-. apply Forall_app. split.
    + apply (encode_char_bytes c Ec).
    + apply IH. reflexivity.
Qed.

Lemma encode_nonempty (c : N) (f : pystr) (bs : pybytes) :
  encode (c :: f) = Ok bs -> bs <> [].
Proof.
  simpl. destruct (encode_char c) as [bc|] eqn:Ec; [|discriminate].
  destruct (encode f) as [bs'|]; [|discriminate].
  intros H. injection H as <-.
  destruct (encode_char_bytes c Ec) as [_ Hn].
  destruct bc; [congruence|discriminate].
Qed.

(** Two strings with the same UTF-8 form are the same string. *)
Lemma encode_inj (f : pystr) :
  forall f' bs, encode f = Ok bs -> encode f' = Ok bs -> f = f'.
Proof.
  induction f as [|c f IH]; intros [|c' f'] bs H H'.
  - reflexivity.
  - simpl in H. injection H as <-. apply encode_nonempty in H'. congruence.
  - simpl in H'. injection H' as <-. apply encode_nonempty in H. congruence.
  - simpl in H, H'.
    destruct (encode_char c) as [bc|] eqn:Ec; [|discriminate].
    destruct (encode f) as [b1|] eqn:Ef; [|discriminate].
    destruct (encode_char c') as [bc'|] eqn:Ec'; [|discriminate].
    destruct (encode f') as [b1'|] eqn:Ef'; [|discriminate].
    injection H as <-. injection H' as H'.
    destruct (encode_char_prefix c' c _ _ Ec' Ec H') as [-> ->].
    f_equal.
    + eapply encode_char_inj; eassumption.
    + eapply IH; [reflexivity|exact Ef'].
Qed.

Lemma below_forallb (P : N -> bool) (k : nat) :
  forallb P (map N.of_nat (seq 0 k)) = true ->
  forall x, x < N.of_nat k -> P x = true.
Proof.
  intros H x Hx. rewrite forallb_forall in H. apply H.
  apply in_map_iff. exists (N.to_nat x). split; [apply N2Nat.id|].
  apply in_seq. lia.
Qed.

Lemma hex_digit_safe (n : N) :
  n < 16 -> in_safe (lit "/") (hex_digit n) = true.
Proof.
  apply (@below_forallb (fun n => in_safe (lit "/") (hex_digit n)) 16).
  vm_compute. reflexivity.
Qed.

Lemma hex_digit_inj (n m : N) : hex_digit n = hex_digit m -> n = m.
Proof.
  unfold hex_digit.
  destruct (n <? 10) eqn:Hn; destruct (m <? 10) eqn:Hm;
    rewrite ?N.ltb_lt, ?N.ltb_ge in *; lia.
Qed.

Lemma nibbles (b : N) : b < 256 -> b / 16 < 16 /\ b mod 16 < 16.
Proof.
  intros H. split; [apply N.Div0.div_lt_upper_bound; exact H|].
  apply N.mod_lt. discriminate.
Qed.

Lemma pct_inj (b b' : N) : pct b = pct b' -> b = b'.
Proof.
  unfold pct. intros H. injection H as H1 H2.
  apply hex_digit_inj in H1. apply hex_digit_inj in H2.
  rewrite (N.div_mod b 16), (N.div_mod b' 16), H1, H2 by discriminate.
  reflexivity.
Qed.

(** The quoted form of a byte starts with ['%'] exactly when the byte is
    escaped, so the quoted bytes can be read back one by one. *)
Lemma quoter_prefix (b b' : N) (r r' : pystr) :
  quoter (lit "/") b ++ r = quoter (lit "/") b' ++ r' -> b = b' /\ r = r'.
Proof.
  unfold quoter.
  destruct (in_safe (lit "/") b) eqn:Hb;
    destruct (in_safe (lit "/") b') eqn:Hb'; cbn [app pct]; intros H.
  - injection H as -> ->. split; reflexivity.
  - injection H as -> _. discriminate Hb.
  - injection H as <- _. discriminate Hb'.
  - injection H as H1 H2 ->. split; [|reflexivity].
    apply pct_inj. unfold pct. rewrite H1, H2. reflexivity.
Qed.

Lemma flat_map_quoter_inj (bs : pybytes) :
  forall bs',
    flat_map (quoter (lit "/")) bs = flat_map (quoter (lit "/")) bs' ->
    bs = bs'.
Proof.
  assert (Hne : forall b r, quoter (lit "/") b ++ r <> []).
  { intros b r. unfold quoter, pct.
    destruct (in_safe (lit "/") b); discriminate. }
  induction bs as [|b bs IH]; intros [|b' bs'] H; cbn [flat_map] in H.
  - reflexivity.
  - symmetry in H. destruct (Hne _ _ H).
  - destruct (Hne _ _ H).
  - apply quoter_prefix in H. destruct H as [-> H]. f_equal. apply IH, H.
Qed.

Lemma quoter_alphabet (b : N) :
  b < 256 ->
  Forall (fun c => in_safe (lit "/") c = true \/ c = 37) (quoter (lit "/") b).
Proof.
  intros H. unfold quoter. destruct (in_safe (lit "/") b) eqn:Hb.
  - constructor; [left; exact Hb|constructor].
  - destruct (nibbles H) as [Hq Hr]. unfold pct.
    constructor; [right; reflexivity|].
    constructor; [left; apply hex_digit_safe; exact Hq|].
    constructor; [left; apply hex_digit_safe; exact Hr|constructor].
Qed.

Lemma Ok_inj (A : Type) (a b : A) : Ok a = Ok b -> a = b.
Proof. congruence. Qed.

Lemma quote_bytes (f u : pystr) :
  quote f = Ok u ->
  exists bs, encode f = Ok bs /\ u = flat_map (quoter (lit "/")) bs.
Proof.
  unfold quote. destruct f as [|c f].
  - intros H. injection H as <-. exists []. split; reflexivity.
  - destruct (encode (c :: f)) as [bs|]; [|discriminate].
    intros H. injection H as <-. exists bs. split; [reflexivity|].
    apply quote_from_bytes_flat_map.
Qed.

(** X11: different filenames, different download URLs.  For one base
    URL and content id, two filenames for which the builder returns the
    same URL are the same filename: percent-encoding loses nothing. *)
Theorem download_urls_do_not_collide (base_url page_id f f' url : pystr) :
  _construct_attachment_download_url base_url page_id f = Ok url ->
  _construct_attachment_download_url base_url page_id f' = Ok url ->
  f = f'.
Proof.
  unfold _construct_attachment_download_url.
  destruct (quote f) as [u|] eqn:Q; [|discriminate].
  destruct (quote f') as [u'|] eqn:Q'; [|discriminate].
  intros H H'. rewrite <- H in H'. clear H. apply Ok_inj in H'.
  do 4 apply app_inv_head in H'. subst u'.
  destruct (quote_bytes f Q) as (bs & Eb & ->).
  destruct (quote_bytes f' Q') as (bs' & Eb' & Hq).
  apply flat_map_quoter_inj in Hq. subst bs'.
  eapply encode_inj; eassumption.
Qed.

Lemma download_urls_do_not_collide_witness :
  _construct_attachment_download_url (lit "https://wiki.example.com")
    (lit "12345") (lit "a b.png")
  = Ok (lit "https://wiki.example.com/download/attachments/12345/a%20b.png")
  /\ lit "a b.png" = lit "a b.png".
Proof.
  assert (H : _construct_attachment_download_url
                (lit "https://wiki.example.com") (lit "12345") (lit "a b.png")
              = Ok (lit "https://wiki.example.com/download/attachments/12345/a%20b.png"))
    by (vm_compute; reflexivity).
  split; [exact H|].
  exact (@download_urls_do_not_collide (lit "https://wiki.example.com")
           (lit "12345") (lit "a b.png") (lit "a b.png")
           (lit "https://wiki.example.com/download/attachments/12345/a%20b.png")
           H H).
Defined.

(** X12: the characters of a download URL.  Behind the base URL, the
    fixed path and the content id, a download URL holds only characters
    that [quote] regards as safe (ASCII letters and digits, [_.-~] and
    [/]) and the ['%'] of an escape: no space, no ['?'] or ['#'], nothing
    outside ASCII. *)
Theorem download_url_is_path_safe (base_url page_id filename url : pystr) :
  _construct_attachment_download_url base_url page_id filename = Ok url ->
  exists segment,
    url = base_url ++ lit "/download/attachments/" ++ page_id ++ lit "/"
          ++ segment
    /\ Forall (fun c => in_safe (lit "/") c = true \/ c = 37) segment.
Proof.
  unfold _construct_attachment_download_url.
  destruct (quote filename) as [u|] eqn:Q; [|discriminate].
  intros H. apply Ok_inj in H. subst url. exists u. split; [reflexivity|].
  destruct (quote_bytes filename Q) as (bs & Eb & ->).
  apply encode_bytes in Eb. clear Q.
  induction Eb as [|b bs Hb _ IH]; [constructor|].
  cbn [flat_map]. apply Forall_app. split; [|exact IH].
  apply quoter_alphabet. exact Hb.
Qed.

Lemma download_url_is_path_safe_witness :
  _construct_attachment_download_url (lit "https://wiki.example.com")
    (lit "12345") (lit "a b?.png")
  = Ok (lit "https://wiki.example.com/download/attachments/12345/a%20b%3F.png")
  /\ exists segment,
       lit "https://wiki.example.com/download/attachments/12345/a%20b%3F.png"
       = lit "https://wiki.example.com" ++ lit "/download/attachments/"
         ++ lit "12345" ++ lit "/" ++ segment
       /\ Forall (fun c => in_safe (lit "/") c = true \/ c = 37) segment.
Proof.
  assert (H : _construct_attachment_download_url
                (lit "https://wiki.example.com") (lit "12345") (lit "a b?.png")
              = Ok (lit "https://wiki.example.com/download/attachments/12345/a%20b%3F.png"))
    by (vm_compute; reflexivity).
  split; [exact H|].
  exact (@download_url_is_path_safe (lit "https://wiki.example.com")
           (lit "12345") (lit "a b?.png")
           (lit "https://wiki.example.com/download/attachments/12345/a%20b%3F.png")
           H).
Defined.

(** ** What the link pass and the bare-reference pass put in place *)



(** X14: a bare attachment reference.  An attachment reference with a
    filename and without an image macro or a link among its ancestors is
    replaced by an [a] element whose [href] is the download URL and whose
    text is the filename; when the URL cannot be built, by the text
    ["[Attachment]"]. *)
Theorem bare_reference_replacement (W : Type) (page_id base_url : pystr)
  (anc : list pystr) (ref : PageElement) (filename : pystr) (s : St W) :
  matches (lit "ri:attachment") [] ref = true ->
  get ref (lit "ri:filename") = Some filename ->
  filename <> [] ->
  nested_in_image_or_link anc = false ->
  fst (visit (ri_attachment_step page_id base_url) anc ref s)
  = match _construct_attachment_download_url base_url page_id filename with
    | Ok download_url => new_a download_url filename
    | Raise _ => NavigableString (lit "[Attachment]")
    end.
Proof.
  intros Hm Hg Hn Ha. destruct ref as [t|name attrs cs]; [discriminate|].
  rewrite visit_tag. unfold ri_attachment_step at 1.
  rewrite Hm, Hg. cbn [truthy_opt unwrap].
  apply truthy_nonempty in Hn. rewrite Hn. cbn [negb].
  unfold nested_in_image_or_link in Ha. apply orb_false_iff in Ha.
  destruct Ha as [-> ->].
  destruct (_construct_attachment_download_url base_url page_id filename);
    run;
    match goal with
    | |- context [visit_all ?h ?a ?l ?st] => destruct (visit_all h a l st)
    end; reflexivity.
Qed.

Lemma bare_reference_replacement_witness :
  nested_in_image_or_link [lit "p"; lit "body"] = false
  /\ fst (visit (ri_attachment_step (lit "12345") (lit "https://h"))
            [lit "p"; lit "body"] (ri_attachment (lit "data export.csv")) s0)
     = new_a (lit "https://h/download/attachments/12345/data%20export.csv")
         (lit "data export.csv").
Proof.
  split; [reflexivity|].
  exact (@bare_reference_replacement unit (lit "12345") (lit "https://h")
           [lit "p"; lit "body"] (ri_attachment (lit "data export.csv"))
           (lit "data export.csv") s0
           eq_refl eq_refl ltac:(discriminate) eq_refl).
Defined.
